(** * Aushadh-AI: the response sanitisation and normalisation layer

    A shallow embedding of the service module of the application
    ([services/geminiService], the second half of
    [src/components/JanAushadhiLocator.tsx], whose line numbers the
    comments use): the string sanitiser [sanitizeString], the JSON
    extraction and the result normaliser of [analyzePrescription], and
    the store extractor of [findNearestStore].

    The host language's built-ins the code calls ([String.prototype.trim],
    [startsWith], [includes], [replace], [match], [join], [toLowerCase],
    [JSON.parse], [Object.keys], [String]) are modelled after ECMAScript in
    the first part of the file; the functions of the module follow, then
    their properties.  Exceptions are explicit: a function that can throw
    returns an [outcome].

    The recursion of [sanitizeString] is modelled twice.  [sanitizeString]
    is the function that the source text defines, on a host that never
    runs out of stack; [sanitizeStringOn] runs it on a stack of a given
    depth, where a call too many raises a RangeError, and so do
    [normalizeOn], [analyzePrescriptionOn] and [findNearestStoreOn].  The
    two agree on every value that is not deeper than the stack
    ([sanitizeStringOn_enough], [normalizeOn_enough],
    [analyzePrescriptionOn_enough]). *)

From Stdlib Require Import String Ascii.
From Stdlib Require Import NArith ZArith Bool Arith Lia List.
Import ListNotations.

Set Implicit Arguments.

(* ===================================================================== *)
(** * Host strings *)
(* ===================================================================== *)

(** A JavaScript string is a finite sequence of UTF-16 code units;
    [length] is the number of code units, as [String.prototype.length]. *)
Abbreviation char16 := N (only parsing).
Abbreviation jsstring := (list N) (only parsing).

(** [lit] turns an ASCII literal into a host string.  [qlit] does the same
    and reads every apostrophe as a quotation mark (code unit 34), so that
    JSON texts can be written inline. *)
Definition lit (s : string) : jsstring :=
  map N_of_ascii (list_ascii_of_string s).

Definition qlit (s : string) : jsstring :=
  map (fun c => if N.eqb c 39 then 34%N else c) (lit s).

Fixpoint str_eqb (a b : jsstring) : bool :=
  match a, b with
  | [], [] => true
  | x :: a', y :: b' => N.eqb x y && str_eqb a' b'
  | _, _ => false
  end.

(** ECMAScript [WhiteSpace] and [LineTerminator] code points, the set
    stripped by [String.prototype.trim]. *)
Definition isWhiteSpace (c : char16) : bool :=
  ((9 <=? c) && (c <=? 13) || (c =? 32) || (c =? 160) || (c =? 5760)
   || (8192 <=? c) && (c <=? 8202) || (c =? 8232) || (c =? 8233)
   || (c =? 8239) || (c =? 8287) || (c =? 12288) || (c =? 65279))%N.

Fixpoint trimStart (s : jsstring) : jsstring :=
  match s with
  | c :: r => if isWhiteSpace c then trimStart r else s
  | [] => []
  end.

Definition trimEnd (s : jsstring) : jsstring := rev (trimStart (rev s)).

Definition trim (s : jsstring) : jsstring := trimEnd (trimStart s).

(** A string is [clean] when it does not begin with white space. *)
Definition clean (s : jsstring) : bool :=
  match s with
  | [] => true
  | c :: _ => negb (isWhiteSpace c)
  end.

(** [startsWith s p] is [s.startsWith(p)]. *)
Fixpoint startsWith (s p : jsstring) {struct p} : bool :=
  match p, s with
  | [], _ => true
  | a :: p', b :: s' => N.eqb a b && startsWith s' p'
  | _ :: _, [] => false
  end.

(** [includes s p] is [s.includes(p)]. *)
Fixpoint includes (s p : jsstring) : bool :=
  startsWith s p ||
  match s with
  | [] => false
  | _ :: s' => includes s' p
  end.

(** [join sep l] is [l.join(sep)] on an array of strings. *)
Fixpoint join (sep : jsstring) (l : list jsstring) : jsstring :=
  match l with
  | [] => []
  | [x] => x
  | x :: r => x ++ sep ++ join sep r
  end.

(** [removeAll p s] is [s.replace(/p/g, '')] for a literal, non-empty
    pattern [p]: the occurrences are found left to right without overlap.
    [skip] counts the code units of the current occurrence still to drop. *)
Fixpoint removeAll_from (p : jsstring) (skip : nat) (s : jsstring) : jsstring :=
  match s with
  | [] => []
  | c :: r =>
      match skip with
      | S k => removeAll_from p k r
      | 0 => if startsWith s p
             then removeAll_from p (Nat.pred (length p)) r
             else c :: removeAll_from p 0 r
      end
  end.

Definition removeAll (p s : jsstring) : jsstring := removeAll_from p 0 s.

(** [matchBraces s] is [s.match(/\{[\s\S]*\}/)]: the span from the first
    opening brace to the last closing brace after it, when there is one. *)
Fixpoint dropUntil (c : char16) (s : jsstring) : option jsstring :=
  match s with
  | [] => None
  | x :: r => if N.eqb x c then Some s else dropUntil c r
  end.

Definition matchBraces (s : jsstring) : option jsstring :=
  match dropUntil 123%N s with
  | None => None
  | Some fromOpen =>
      match dropUntil 125%N (rev fromOpen) with
      | None => None
      | Some revSpan => Some (rev revSpan)
      end
  end.

(** The literal produced by the default object-to-string coercion. *)
Definition artifact : jsstring := lit "[object Object]".

(* ===================================================================== *)
(** * Host numbers and case conversion *)
(* ===================================================================== *)

(** A JavaScript number is an IEEE-754 double.  The code only builds
    numbers from JSON number literals, tests them for truthiness and prints
    them with [String]; these three operations are kept abstract.  The one
    law records that [Number::toString] yields a numeral: its text begins
    with a digit, a minus sign, [I] (Infinity) or [N] (NaN).

    [String.prototype.toLowerCase] follows the Unicode character database
    and is kept abstract as well; all that is recorded is what it does to a
    string of Basic Latin (ASCII) code units: the capital letters A to Z
    become small, nothing else changes. *)
Definition numeralHead (s : jsstring) : bool :=
  match s with
  | c :: _ => ((48 <=? c) && (c <=? 57) || (c =? 45) || (c =? 73) || (c =? 78))%N
  | [] => false
  end.

Definition isAscii (c : char16) : bool := (c <? 128)%N.

Definition lowerAscii (c : char16) : char16 :=
  (if (65 <=? c) && (c <=? 90) then c + 32 else c)%N.

Class Host : Type := {
  number : Type;
  Number_ofLiteral : jsstring -> number;
  Number_toString : number -> jsstring;
  Number_toBoolean : number -> bool;
  Number_toString_numeral : forall x, numeralHead (Number_toString x) = true;
  toLowerCase : jsstring -> jsstring;
  toLowerCase_ascii : forall s,
    forallb isAscii s = true -> toLowerCase s = map lowerAscii s
}.

(* ===================================================================== *)
(** * Results, exceptions *)
(* ===================================================================== *)

(** The result of a parsing function: a value and the rest of the input, a
    syntax error, or not enough fuel. *)
Inductive presult (A : Type) : Type :=
  | POk (a : A) (rest : jsstring)
  | PSyntax
  | PFuel.
Arguments PSyntax {A}.
Arguments PFuel {A}.

(** [stable r r']: a run that did not exhaust its fuel is unchanged by
    more fuel. *)
Definition stable {A : Type} (r r' : presult A) : Prop := r = PFuel \/ r = r'.

(** A call either returns or throws.  [Rejected] stands for whatever the
    provider's client throws (network failure, quota, missing key);
    [RangeError] is what the host throws when its call stack is exhausted. *)
Inductive exn : Type :=
  | Error (message : string)
  | TypeError
  | RangeError
  | Rejected.

Inductive outcome (A : Type) : Type :=
  | Return (a : A)
  | Throw (e : exn).
Arguments Throw {A}.

Definition bind {A B : Type} (m : outcome A) (k : A -> outcome B) : outcome B :=
  match m with
  | Return a => k a
  | Throw e => Throw e
  end.

Notation "x <- m ;; k" := (bind m (fun x => k))
  (at level 61, m at next level, right associativity).

(** [mapM f l]: [l.map(f)] where [f] may fail; the first failure wins. *)
Fixpoint mapM {A B : Type} (f : A -> option B) (l : list A) : option (list B) :=
  match l with
  | [] => Some []
  | a :: r =>
      match f a with
      | None => None
      | Some b => match mapM f r with
                  | None => None
                  | Some bs => Some (b :: bs)
                  end
      end
  end.

Fixpoint mapT {A B : Type} (f : A -> outcome B) (l : list A) : outcome (list B) :=
  match l with
  | [] => Return []
  | a :: r => b <- f a ;; bs <- mapT f r ;; Return (b :: bs)
  end.

(* ===================================================================== *)
(** * Host values and JSON.parse *)
(* ===================================================================== *)

Section Model.

Context {H : Host}.

(** The values that reach the service code: what [JSON.parse] can build,
    plus [undefined], the result of reading an absent property.  An object
    is the list of its property definitions in order; a later definition
    of a key overrides an earlier one, as in the host. *)
#[warnings="-register-all"]
Inductive value : Type :=
  | VUndefined
  | VNull
  | VBool (b : bool)
  | VNum (x : number)
  | VStr (s : jsstring)
  | VArr (elems : list value)
  | VObj (props : list (jsstring * value)).

(** Size of a value: one per node plus the code units of its strings. *)
Fixpoint weight (v : value) : nat :=
  match v with
  | VStr s => S (length s)
  | VArr l => S (list_sum (map weight l))
  | VObj o => S (list_sum (map (fun kv => weight (snd kv)) o))
  | _ => 1
  end.

(** [ToBoolean]. *)
Definition truthy (v : value) : bool :=
  match v with
  | VUndefined | VNull => false
  | VBool b => b
  | VNum x => Number_toBoolean x
  | VStr s => negb (str_eqb s [])
  | VArr _ | VObj _ => true
  end.

(** The own property [k] of an object given by its property definitions:
    the last definition of [k], if any. *)
Fixpoint lookup (o : list (jsstring * value)) (k : jsstring) : option value :=
  match o with
  | [] => None
  | (k', v) :: r =>
      match lookup r k with
      | Some later => Some later
      | None => if str_eqb k' k then Some v else None
      end
  end.

(** [v.k] for a property name [k] that no prototype defines (every name the
    service code reads is such a name): own properties of objects,
    [undefined] on arrays and primitives.  Reading a property of [null] or
    [undefined] raises a TypeError, which [getProp] leaves to its callers. *)
Definition getProp (v : value) (k : jsstring) : value :=
  match v with
  | VObj o => match lookup o k with Some w => w | None => VUndefined end
  | _ => VUndefined
  end.

(** [Object.keys]: the distinct keys.  (The host lists integer-like keys
    first; the code only looks at the key of a one-key object.) *)
Fixpoint distinct (ks : list jsstring) : list jsstring :=
  match ks with
  | [] => []
  | k :: r => k :: filter (fun k' => negb (str_eqb k' k)) (distinct r)
  end.

Definition Object_keys (o : list (jsstring * value)) : list jsstring :=
  distinct (map fst o).

(** ** JSON.parse (ECMA-404) *)


Definition isJsonSpace (c : char16) : bool :=
  ((c =? 32) || (c =? 9) || (c =? 10) || (c =? 13))%N.

Fixpoint skip_ws (s : jsstring) : jsstring :=
  match s with
  | c :: r => if isJsonSpace c then skip_ws r else s
  | [] => []
  end.

Definition isDigit (c : char16) : bool := ((48 <=? c) && (c <=? 57))%N.

Definition hexDigit (c : char16) : option N :=
  (if (48 <=? c) && (c <=? 57) then Some (c - 48)
   else if (97 <=? c) && (c <=? 102) then Some (c - 87)
   else if (65 <=? c) && (c <=? 70) then Some (c - 55)
   else None)%N.

Definition hex4 (a b c d : char16) : option char16 :=
  match hexDigit a, hexDigit b, hexDigit c, hexDigit d with
  | Some x, Some y, Some z, Some w => Some (((x * 16 + y) * 16 + z) * 16 + w)%N
  | _, _, _, _ => None
  end.

(** The single-character escapes: quotation mark, reverse solidus, solidus,
    b, f, n, r, t. *)
Definition escape (e : char16) : option char16 :=
  (if e =? 34 then Some 34 else if e =? 92 then Some 92
   else if e =? 47 then Some 47 else if e =? 98 then Some 8
   else if e =? 102 then Some 12 else if e =? 110 then Some 10
   else if e =? 114 then Some 13 else if e =? 116 then Some 9
   else None)%N.

Definition consChar (c : char16) (r : option (jsstring * jsstring))
  : option (jsstring * jsstring) :=
  match r with
  | Some (str, rest) => Some (c :: str, rest)
  | None => None
  end.

(** The characters of a string literal, after its opening quotation mark. *)
Fixpoint parse_chars (s : jsstring) : option (jsstring * jsstring) :=
  match s with
  | [] => None
  | c :: r =>
      if (c =? 34)%N then Some ([], r)
      else if (c =? 92)%N then
        match r with
        | [] => None
        | e :: r1 =>
            if (e =? 117)%N then
              match r1 with
              | h1 :: h2 :: h3 :: h4 :: r2 =>
                  match hex4 h1 h2 h3 h4 with
                  | Some u => consChar u (parse_chars r2)
                  | None => None
                  end
              | _ => None
              end
            else
              match escape e with
              | Some u => consChar u (parse_chars r1)
              | None => None
              end
        end
      else if (c <? 32)%N then None
      else consChar c (parse_chars r)
  end.

Fixpoint span_digits (s : jsstring) : jsstring * jsstring :=
  match s with
  | c :: r =>
      if isDigit c then let (d, r') := span_digits r in (c :: d, r')
      else ([], s)
  | [] => ([], [])
  end.

(** [int]: a single zero, or a non-zero digit followed by digits. *)
Definition parse_int (s : jsstring) : option (jsstring * jsstring) :=
  match s with
  | c :: r =>
      if (c =? 48)%N then Some ([c], r)
      else if isDigit c then let (d, r') := span_digits r in Some (c :: d, r')
      else None
  | [] => None
  end.

(** [frac]: optional; a point must be followed by a digit. *)
Definition parse_frac (s : jsstring) : option (jsstring * jsstring) :=
  match s with
  | c :: r =>
      if (c =? 46)%N then
        match span_digits r with
        | ([], _) => None
        | (d, r') => Some (c :: d, r')
        end
      else Some ([], s)
  | [] => Some ([], s)
  end.

(** [exp]: optional; [e] or [E], an optional sign, at least one digit. *)
Definition parse_exp (s : jsstring) : option (jsstring * jsstring) :=
  match s with
  | c :: r =>
      if ((c =? 101) || (c =? 69))%N then
        let (sign, r1) :=
          match r with
          | c2 :: r2 => if ((c2 =? 43) || (c2 =? 45))%N then ([c2], r2) else ([], r)
          | [] => ([], r)
          end in
        match span_digits r1 with
        | ([], _) => None
        | (d, r') => Some (c :: sign ++ d, r')
        end
      else Some ([], s)
  | [] => Some ([], s)
  end.

(** A number literal; the result is its text and the rest of the input. *)
Definition parse_number (s : jsstring) : option (jsstring * jsstring) :=
  let (sign, s1) :=
    match s with
    | c :: r => if (c =? 45)%N then ([c], r) else ([], s)
    | [] => ([], s)
    end in
  match parse_int s1 with
  | None => None
  | Some (i, s2) =>
      match parse_frac s2 with
      | None => None
      | Some (f, s3) =>
          match parse_exp s3 with
          | None => None
          | Some (e, s4) => Some (sign ++ i ++ f ++ e, s4)
          end
      end
  end.

(** Recursive descent over the grammar, one function per nonterminal.
    Each body takes the parsers it calls as arguments; the fixpoint below
    ties them together. *)
Definition liftP {A B : Type} (f : A -> B) (r : presult A) : presult B :=
  match r with
  | POk a rest => POk (f a) rest
  | PSyntax => PSyntax
  | PFuel => PFuel
  end.

(** [value]: an object, an array, a string, a literal name or a number. *)
Definition value_body
    (elements : jsstring -> presult (list value))
    (members : jsstring -> presult (list (jsstring * value)))
    (s : jsstring) : presult value :=
  match skip_ws s with
  | [] => PSyntax
  | c :: r =>
      if (c =? 123)%N then
        match skip_ws r with
        | [] => PSyntax
        | c' :: r' =>
            if (c' =? 125)%N then POk (VObj []) r'
            else liftP VObj (members (c' :: r'))
        end
      else if (c =? 91)%N then
        match skip_ws r with
        | [] => PSyntax
        | c' :: r' =>
            if (c' =? 93)%N then POk (VArr []) r'
            else liftP VArr (elements (c' :: r'))
        end
      else if (c =? 34)%N then
        match parse_chars r with
        | Some (str, rest) => POk (VStr str) rest
        | None => PSyntax
        end
      else if startsWith (c :: r) (lit "true") then POk (VBool true) (skipn 4 (c :: r))
      else if startsWith (c :: r) (lit "false") then POk (VBool false) (skipn 5 (c :: r))
      else if startsWith (c :: r) (lit "null") then POk VNull (skipn 4 (c :: r))
      else
        match parse_number (c :: r) with
        | Some (text, rest) => POk (VNum (Number_ofLiteral text)) rest
        | None => PSyntax
        end
  end.

(** [elements]: values separated by commas, up to the closing bracket. *)
Definition elements_body
    (pvalue : jsstring -> presult value)
    (elements : jsstring -> presult (list value))
    (s : jsstring) : presult (list value) :=
  match pvalue s with
  | PSyntax => PSyntax
  | PFuel => PFuel
  | POk v rest =>
      match skip_ws rest with
      | [] => PSyntax
      | c :: r =>
          if (c =? 44)%N then liftP (cons v) (elements r)
          else if (c =? 93)%N then POk [v] r
          else PSyntax
      end
  end.

(** [members]: [string : value] pairs separated by commas, up to the
    closing brace. *)
Definition members_body
    (pvalue : jsstring -> presult value)
    (members : jsstring -> presult (list (jsstring * value)))
    (s : jsstring) : presult (list (jsstring * value)) :=
  match skip_ws s with
  | [] => PSyntax
  | q :: r =>
      if (q =? 34)%N then
        match parse_chars r with
        | None => PSyntax
        | Some (k, rest) =>
            match skip_ws rest with
            | [] => PSyntax
            | colon :: r2 =>
                if (colon =? 58)%N then
                  match pvalue r2 with
                  | PSyntax => PSyntax
                  | PFuel => PFuel
                  | POk v rest2 =>
                      match skip_ws rest2 with
                      | [] => PSyntax
                      | c :: r3 =>
                          if (c =? 44)%N then liftP (cons (k, v)) (members r3)
                          else if (c =? 125)%N then POk [(k, v)] r3
                          else PSyntax
                      end
                  end
                else PSyntax
            end
        end
      else PSyntax
  end.

(** [fuel] bounds the depth of the calls; [parse_fuel_enough] below shows
    that [JSON_parse] supplies enough of it, so that [PFuel] never
    escapes. *)
Fixpoint parse_value (fuel : nat) (s : jsstring) : presult value :=
  match fuel with
  | 0 => PFuel
  | S n => value_body (parse_elements n) (parse_members n) s
  end

with parse_elements (fuel : nat) (s : jsstring) : presult (list value) :=
  match fuel with
  | 0 => PFuel
  | S n => elements_body (parse_value n) (parse_elements n) s
  end

with parse_members (fuel : nat) (s : jsstring) : presult (list (jsstring * value)) :=
  match fuel with
  | 0 => PFuel
  | S n => members_body (parse_value n) (parse_members n) s
  end.

(** [JSON.parse(s)]: [None] stands for the SyntaxError it throws. *)
Definition JSON_parse (s : jsstring) : option value :=
  match parse_value (2 * length s + 3) s with
  | POk v rest => match skip_ws rest with [] => Some v | _ :: _ => None end
  | PSyntax | PFuel => None
  end.



(* ===================================================================== *)
(** * sanitizeString *)
(* ===================================================================== *)

Definition Boolean_toString (b : bool) : jsstring :=
  if b then lit "true" else lit "false".

(** [Boolean(s)] on a string, the predicate of [.filter(Boolean)]. *)
Definition nonEmpty (s : jsstring) : bool := negb (str_eqb s []).

Definition priorityKeys : list jsstring :=
  map lit ["text"; "value"; "displayValue"; "brand"; "name"; "message"]%string.

(** The loop over [priorityKeys]: the value of the first key that is
    neither [undefined] nor [null]. *)
Fixpoint firstPresent (val : value) (keys : list jsstring) : option value :=
  match keys with
  | [] => None
  | key :: r =>
      match getProp val key with
      | VUndefined | VNull => firstPresent val r
      | w => Some w
      end
  end.

(** [sanitizeString], with the depth of its self-calls bounded by [fuel].
    The final [String(val)] branch of the source is reached only by values
    that are none of the above (functions, symbols, bigints), which are not
    values of this model. *)
Fixpoint sanitize (fuel : nat) (val : value) : option jsstring :=
  match fuel with
  | 0 => None
  | S n =>
      match val with
      | VNull | VUndefined => Some []
      | VStr s =>
          let trimmed := trim s in
          if str_eqb trimmed artifact
             || startsWith trimmed (qlit "{'")
             || startsWith trimmed (lit "{")
          then
            match JSON_parse trimmed with
            | Some p => sanitize n p
            | None => Some (if str_eqb trimmed artifact then [] else trimmed)
            end
          else Some (if str_eqb s artifact then [] else s)
      | VNum x => Some (Number_toString x)
      | VBool b => Some (Boolean_toString b)
      | VArr elems =>
          option_map (fun rs => join (lit ", ") (filter nonEmpty rs))
                     (mapM (sanitize n) elems)
      | VObj props =>
          match firstPresent val priorityKeys with
          | Some w => sanitize n w
          | None =>
              match Object_keys props with
              | [k] => sanitize n (getProp val k)
              | _ => Some []
              end
          end
      end
  end.

(** The weight of the argument is enough fuel ([sanitize_enough] below). *)
Definition sanitizeString (val : value) : jsstring :=
  match sanitize (weight val) val with
  | Some r => r
  | None => []
  end.

(* ===================================================================== *)
(** * analyzePrescription *)
(* ===================================================================== *)

Record Medication : Type := {
  prescribed_brand : jsstring;
  active_salt : jsstring;
  jan_aushadhi_generic : jsstring;
  brand_price_est : jsstring;
  jan_aushadhi_price_est : jsstring;
  savings_est : jsstring
}.

Record Metadata : Type := {
  doctor : jsstring;
  date : jsstring;
  currency : jsstring
}.

Record Summary : Type := {
  en : jsstring; hi : jsstring; te : jsstring; ta : jsstring;
  kn : jsstring; bn : jsstring; mr : jsstring
}.

Record AnalysisResult : Type := {
  metadata : Metadata;
  medications : list Medication;
  bhashini_summary : Summary;
  disclaimer : jsstring
}.

(** Lines 279-294: the text of the response to a parsed value. *)
Definition cleanText (text : jsstring) : jsstring :=
  trim (removeAll (lit "```") (removeAll (lit "```json") text)).

Definition extractJson (text : jsstring) : outcome value :=
  match JSON_parse (cleanText text) with
  | Some parsed => Return parsed
  | None =>
      match matchBraces text with
      | Some jsonMatch =>
          match JSON_parse jsonMatch with
          | Some parsed => Return parsed
          | None => Throw (Error "Failed to parse AI response as JSON")
          end
      | None => Throw (Error "No JSON structure found in text")
      end
  end.

(** [v || d] for a string default [d]. *)
Definition orElse (v : value) (d : jsstring) : value :=
  if truthy v then v else VStr d.

(** Whether a property of [v] can be assigned: objects and arrays take it,
    a primitive raises a TypeError (module code is strict). *)
Definition assignable (v : value) : bool :=
  match v with
  | VObj _ | VArr _ => true
  | _ => false
  end.

(** The callback of [.map] on line 302; reading a property of a [null]
    entry raises. *)
Definition sanitizeMedication (m : value) : outcome Medication :=
  match m with
  | VNull | VUndefined => Throw TypeError
  | _ =>
      Return {|
        prescribed_brand := sanitizeString (getProp m (lit "prescribed_brand"));
        active_salt := sanitizeString (getProp m (lit "active_salt"));
        jan_aushadhi_generic := sanitizeString (getProp m (lit "jan_aushadhi_generic"));
        brand_price_est := sanitizeString (getProp m (lit "brand_price_est"));
        jan_aushadhi_price_est := sanitizeString (getProp m (lit "jan_aushadhi_price_est"));
        savings_est := sanitizeString (getProp m (lit "savings_est"))
      |}
  end.

(** The callback of [.filter] on line 310. *)
Definition keepMedication (m : Medication) : bool :=
  let brand := toLowerCase (prescribed_brand m) in
  nonEmpty brand
  && (1 <? length brand)
  && negb (includes brand (lit "not provided"))
  && negb (includes brand (lit "illegible")).

(** Lines 298 and 301-313. *)
Definition normalizeMedications (meds : value) : outcome (list Medication) :=
  match meds with
  | VArr entries =>
      ms <- mapT sanitizeMedication entries ;;
      Return (filter keepMedication ms)
  | _ => Return []
  end.

(** Lines 299 and 319-324. *)
Definition normalizeSummary (summary : value) : Summary :=
  let s := if truthy summary then summary else VObj [] in
  {| en := sanitizeString (orElse (getProp s (lit "en")) (lit "Analysis complete."));
     hi := sanitizeString (getProp s (lit "hi"));
     te := sanitizeString (getProp s (lit "te"));
     ta := sanitizeString (getProp s (lit "ta"));
     kn := sanitizeString (getProp s (lit "kn"));
     bn := sanitizeString (getProp s (lit "bn"));
     mr := sanitizeString (getProp s (lit "mr")) |}.

(** The source of the English summary: [parsed.bhashini_summary.en] after
    the defaults of lines 296 and 299. *)
Definition sourceEn (parsed : value) : value :=
  let p := if truthy parsed then parsed else VObj [] in
  let summary := getProp p (lit "bhashini_summary") in
  getProp (if truthy summary then summary else VObj []) (lit "en").

(** Lines 297 and 315-317. *)
Definition normalizeMetadata (md : value) : outcome Metadata :=
  let m := if truthy md then md else VObj [] in
  if assignable m then
    Return {|
      doctor := sanitizeString (orElse (getProp m (lit "doctor")) (lit "Not provided in image"));
      date := sanitizeString (orElse (getProp m (lit "date")) (lit "Not provided in image"));
      currency := sanitizeString (orElse (getProp m (lit "currency")) (lit "INR"))
    |}
  else Throw TypeError.

(** Lines 296-328: the parsed value to an [AnalysisResult]. *)
Definition normalize (parsed0 : value) : outcome AnalysisResult :=
  let parsed := if truthy parsed0 then parsed0 else VObj [] in
  if assignable parsed then
    meds <- normalizeMedications (getProp parsed (lit "medications")) ;;
    md <- normalizeMetadata (getProp parsed (lit "metadata")) ;;
    Return {|
      metadata := md;
      medications := meds;
      bhashini_summary := normalizeSummary (getProp parsed (lit "bhashini_summary"));
      disclaimer := sanitizeString (getProp parsed (lit "disclaimer"))
    |}
  else Throw TypeError.

(** [analyzePrescription], given the outcome of the provider call and the
    [text] of its response ([None] when the response has none).  The outer
    [catch] logs and rethrows. *)
Definition analyzePrescription (ai : outcome (option jsstring)) : outcome AnalysisResult :=
  response_text <- ai ;;
  match response_text with
  | None => Throw (Error "No response text from AI")
  | Some text =>
      if nonEmpty text then parsed <- extractJson text ;; normalize parsed
      else Throw (Error "No response text from AI")
  end.

(* ===================================================================== *)
(** * findNearestStore *)
(* ===================================================================== *)

Record StoreLocation : Type := {
  name : jsstring;
  address : jsstring;
  mapUri : jsstring
}.

(** The part of the provider's response the function reads.  Grounding
    chunks are untyped in the source ([chunk: any]). *)
Record GroundingMetadata : Type := {
  groundingChunks : option (list value)
}.

Record Candidate : Type := {
  groundingMetadata : option GroundingMetadata
}.

Record GenerateContentResponse : Type := {
  candidates : option (list Candidate);
  text : option jsstring
}.

(** The three accumulators of the [forEach] on line 360. *)
Record Scan : Type := {
  scan_mapUri : jsstring;
  scan_name : jsstring;
  scan_snippets : jsstring
}.

Definition placeholder : jsstring := lit "Jan Aushadhi Kendra".

Definition scanChunk (st : Scan) (chunk : value) : outcome Scan :=
  match chunk with
  | VNull | VUndefined => Throw TypeError
  | _ =>
      let maps := getProp chunk (lit "maps") in
      if truthy maps then
        let uri := getProp maps (lit "uri") in
        let title := getProp maps (lit "title") in
        let s := match getProp maps (lit "placeAnswerSources") with
                 | VNull | VUndefined => VUndefined
                 | sources => getProp sources (lit "reviewSnippets")
                 end in
        Return {|
          scan_mapUri := if truthy uri then sanitizeString uri else scan_mapUri st;
          scan_name := if truthy title then sanitizeString title else scan_name st;
          scan_snippets :=
            match s with
            | VArr vs => scan_snippets st ++ lit " " ++ join (lit ". ") (map sanitizeString vs)
            | _ => scan_snippets st
            end
        |}
      else Return st
  end.

Fixpoint scanChunks (st : Scan) (chunks : list value) : outcome Scan :=
  match chunks with
  | [] => Return st
  | chunk :: r => st' <- scanChunk st chunk ;; scanChunks st' r
  end.

(** The map-search URL of line 379. *)
Definition searchUrl (lat lng : number) : jsstring :=
  lit "https://www.google.com/maps/search/Pradhan+Mantri+Bhartiya+Janaushadhi+Kendra/@"
  ++ Number_toString lat ++ lit "," ++ Number_toString lng ++ lit ",15z".

(** [metadata?.groundingChunks || []] on line 354. *)
Definition chunksOf (first : Candidate) : list value :=
  match groundingMetadata first with
  | Some md => match groundingChunks md with Some cs => cs | None => [] end
  | None => []
  end.

Definition scanStart : Scan :=
  {| scan_mapUri := []; scan_name := placeholder; scan_snippets := [] |}.

(** Lines 350-386: the body of the [try], after the provider call. *)
Definition extractStore (lat lng : number) (response : GenerateContentResponse)
  : outcome (option StoreLocation) :=
  match candidates response with
  | None | Some [] => Return None
  | Some (first :: _) =>
      st <- scanChunks scanStart (chunksOf first) ;;
      let rawText := match text response with Some t => t | None => [] end in
      let address0 := sanitizeString (VStr (trim (removeAll (lit "*") rawText))) in
      let address1 :=
        if negb (nonEmpty address0) || (length address0 <? 5)
        then lit "Jan Aushadhi Kendra (Verified Store)"
             ++ (if nonEmpty (scan_snippets st) then lit ": " ++ scan_snippets st else [])
        else address0 in
      let mapUri1 :=
        if nonEmpty (scan_mapUri st) then scan_mapUri st else searchUrl lat lng in
      let name1 := sanitizeString (VStr (scan_name st)) in
      Return (Some {|
        name := if nonEmpty name1 then name1 else placeholder;
        address := sanitizeString (VStr address1);
        mapUri := sanitizeString (VStr mapUri1)
      |})
  end.

(** [findNearestStore]: the [catch] turns every exception of the body,
    the provider's included, into [null]. *)
Definition findNearestStore (lat lng : number) (ai : outcome GenerateContentResponse)
  : outcome (option StoreLocation) :=
  match response <- ai ;; extractStore lat lng response with
  | Return r => Return r
  | Throw _ => Return None
  end.

(* ===================================================================== *)
(** * generateSpeech *)
(* ===================================================================== *)

(** The part of the provider's response the function reads on line 404:
    [response.candidates?.[0]?.content?.parts?.[0]?.inlineData?.data]. *)
Record InlineData : Type := {
  data : option jsstring
}.

Record Part : Type := {
  inlineData : option InlineData
}.

Record Content : Type := {
  parts : option (list Part)
}.

Record SpeechCandidate : Type := {
  content : option Content
}.

Record SpeechResponse : Type := {
  speechCandidates : option (list SpeechCandidate)
}.

(** [a?.[0]] on an optional array. *)
Definition first {A : Type} (a : option (list A)) : option A :=
  match a with
  | Some (x :: _) => Some x
  | Some [] | None => None
  end.

(** [o?.f] for an optional [o] and an optional field [f]. *)
Definition chain {A B : Type} (o : option A) (f : A -> option B) : option B :=
  match o with
  | Some a => f a
  | None => None
  end.

Definition base64Audio (response : SpeechResponse) : option jsstring :=
  chain (chain (first (chain (chain (first (speechCandidates response)) content) parts))
               inlineData)
        data.

(** [generateSpeech], given the outcome of the provider call.  The [catch]
    logs and rethrows. *)
Definition generateSpeech (ai : outcome SpeechResponse) : outcome jsstring :=
  response <- ai ;;
  match base64Audio response with
  | Some audio =>
      if nonEmpty audio then Return audio
      else Throw (Error "No audio content returned")
  | None => Throw (Error "No audio content returned")
  end.

(* ===================================================================== *)
(** * The JanAushadhiLocator component *)
(* ===================================================================== *)

(** The four state variables of lines 7-10. *)
Record LocatorState : Type := {
  loading : bool;
  store : option StoreLocation;
  error : option jsstring;
  permissionDenied : bool
}.

(** The state at mount. *)
Definition initialState : LocatorState :=
  {| loading := false; store := None; error := None; permissionDenied := false |}.

(** A [GeolocationPositionError]: its [code] and its [message]; the
    constants [PERMISSION_DENIED], [POSITION_UNAVAILABLE] and [TIMEOUT] of
    the interface are 1, 2 and 3. *)
Record PositionError : Type := {
  code : N;
  message : value
}.

Definition PERMISSION_DENIED : N := 1.
Definition POSITION_UNAVAILABLE : N := 2.
Definition TIMEOUT : N := 3.

(** Lines 58-69: the message shown for a geolocation error. *)
Definition userMessage (err : PositionError) : jsstring :=
  if N.eqb (code err) PERMISSION_DENIED
  then lit "Location access is required to find the nearest store."
  else if N.eqb (code err) POSITION_UNAVAILABLE
  then lit "Position unavailable. Please ensure GPS is enabled and you have a signal."
  else if N.eqb (code err) TIMEOUT
  then lit "Location request timed out. Please try again."
  else match message err with
       | VStr m => if nonEmpty m then m
                   else lit "Location could not be retrieved. Please try again."
       | _ => lit "Location could not be retrieved. Please try again."
       end.

(** What happens after [handleLocate] has reset the state: the browser has
    no geolocation, or it calls one of the two callbacks, the first with a
    position for which the provider call has outcome [ai]. *)
Inductive Geolocation : Type :=
  | Unsupported
  | Position (latitude longitude : number) (ai : outcome GenerateContentResponse)
  | Failed (err : PositionError).

(** Lines 18-20. *)
Definition resetState (st : LocatorState) : LocatorState :=
  {| loading := true; store := store st; error := None; permissionDenied := false |}.

(** Lines 35-53: the success callback, given what [findNearestStore] did. *)
Definition onPosition (found : outcome (option StoreLocation)) (st : LocatorState)
  : LocatorState :=
  match found with
  | Return (Some result) =>
      {| loading := false; store := Some result; error := error st;
         permissionDenied := permissionDenied st |}
  | Return None =>
      {| loading := false; store := store st;
         error := Some (lit "Unable to find a store nearby. Please try again or search on Google Maps.");
         permissionDenied := permissionDenied st |}
  | Throw _ =>
      {| loading := false; store := store st;
         error := Some (lit "Connection issue. Please check your internet and try again.");
         permissionDenied := permissionDenied st |}
  end.

(** Lines 54-73: the error callback. *)
Definition onError (err : PositionError) (st : LocatorState) : LocatorState :=
  {| loading := false; store := store st;
     error := Some (userMessage err);
     permissionDenied :=
       if N.eqb (code err) PERMISSION_DENIED then true else permissionDenied st |}.

(** [handleLocate], run to the end of the callback it leads to. *)
Definition handleLocate (geo : Geolocation) (st : LocatorState) : LocatorState :=
  let st1 := resetState st in
  match geo with
  | Unsupported =>
      {| loading := false; store := store st1;
         error := Some (lit "Geolocation is not supported by your browser");
         permissionDenied := permissionDenied st1 |}
  | Position latitude longitude ai =>
      onPosition (findNearestStore latitude longitude ai) st1
  | Failed err => onError err st1
  end.

(* ===================================================================== *)
(** * The call stack of the host *)
(* ===================================================================== *)

(** [sanitizeString] calls itself without a bound on the nesting, and the
    call stack of the host is finite: one call too many raises a
    RangeError.  In this part [stack] is the number of activations of
    [sanitizeString] that the host can still nest; the frames of the
    built-ins and of the callbacks of [map] are counted with the activation
    that makes them, and the built-ins, [JSON.parse] included, are taken
    to run within the stack that is left.  The [catch] of line 219 binds
    no exception: it catches the RangeError of the call on line 218 as it
    catches the SyntaxError of line 217, and the trimmed text is returned. *)
Fixpoint sanitizeStringOn (stack : nat) (val : value) : outcome jsstring :=
  match stack with
  | 0 => Throw RangeError
  | S below =>
      match val with
      | VNull | VUndefined => Return []
      | VStr s =>
          let trimmed := trim s in
          if str_eqb trimmed artifact
             || startsWith trimmed (qlit "{'")
             || startsWith trimmed (lit "{")
          then
            match JSON_parse trimmed with
            | Some p =>
                match sanitizeStringOn below p with
                | Return r => Return r
                | Throw _ => Return (if str_eqb trimmed artifact then [] else trimmed)
                end
            | None => Return (if str_eqb trimmed artifact then [] else trimmed)
            end
          else Return (if str_eqb s artifact then [] else s)
      | VNum x => Return (Number_toString x)
      | VBool b => Return (Boolean_toString b)
      | VArr elems =>
          rs <- mapT (sanitizeStringOn below) elems ;;
          Return (join (lit ", ") (filter nonEmpty rs))
      | VObj props =>
          match firstPresent val priorityKeys with
          | Some w => sanitizeStringOn below w
          | None =>
              match Object_keys props with
              | [k] => sanitizeStringOn below (getProp val k)
              | _ => Return []
              end
          end
      end
  end.

(** ** analyzePrescription on a finite stack

    The statements of lines 296-328 in their order, each call of
    [sanitizeString] with the stack that is left at its place. *)

(** The callback of [.map] on line 302: the six fields in the order of the
    object literal. *)
Definition sanitizeMedicationOn (stack : nat) (m : value) : outcome Medication :=
  match m with
  | VNull | VUndefined => Throw TypeError
  | _ =>
      brand <- sanitizeStringOn stack (getProp m (lit "prescribed_brand")) ;;
      salt <- sanitizeStringOn stack (getProp m (lit "active_salt")) ;;
      generic <- sanitizeStringOn stack (getProp m (lit "jan_aushadhi_generic")) ;;
      brand_price <- sanitizeStringOn stack (getProp m (lit "brand_price_est")) ;;
      generic_price <- sanitizeStringOn stack (getProp m (lit "jan_aushadhi_price_est")) ;;
      savings <- sanitizeStringOn stack (getProp m (lit "savings_est")) ;;
      Return {|
        prescribed_brand := brand;
        active_salt := salt;
        jan_aushadhi_generic := generic;
        brand_price_est := brand_price;
        jan_aushadhi_price_est := generic_price;
        savings_est := savings
      |}
  end.

(** Lines 298 and 301-313. *)
Definition normalizeMedicationsOn (stack : nat) (meds : value)
  : outcome (list Medication) :=
  match meds with
  | VArr entries =>
      ms <- mapT (sanitizeMedicationOn stack) entries ;;
      Return (filter keepMedication ms)
  | _ => Return []
  end.

(** Lines 297 and 315-317.  In [parsed.metadata.doctor = sanitizeString(...)]
    the right-hand side is evaluated before the assignment: on a primitive
    [metadata] the default is sanitised first, then the assignment raises. *)
Definition normalizeMetadataOn (stack : nat) (md : value) : outcome Metadata :=
  let m := if truthy md then md else VObj [] in
  doctor' <- sanitizeStringOn stack
               (orElse (getProp m (lit "doctor")) (lit "Not provided in image")) ;;
  if assignable m then
    date' <- sanitizeStringOn stack
               (orElse (getProp m (lit "date")) (lit "Not provided in image")) ;;
    currency' <- sanitizeStringOn stack
                   (orElse (getProp m (lit "currency")) (lit "INR")) ;;
    Return {| doctor := doctor'; date := date'; currency := currency' |}
  else Throw TypeError.

(** Lines 299 and 319-324. *)
Definition normalizeSummaryOn (stack : nat) (summary : value) : outcome Summary :=
  let s := if truthy summary then summary else VObj [] in
  en' <- sanitizeStringOn stack
           (orElse (getProp s (lit "en")) (lit "Analysis complete.")) ;;
  hi' <- sanitizeStringOn stack (getProp s (lit "hi")) ;;
  te' <- sanitizeStringOn stack (getProp s (lit "te")) ;;
  ta' <- sanitizeStringOn stack (getProp s (lit "ta")) ;;
  kn' <- sanitizeStringOn stack (getProp s (lit "kn")) ;;
  bn' <- sanitizeStringOn stack (getProp s (lit "bn")) ;;
  mr' <- sanitizeStringOn stack (getProp s (lit "mr")) ;;
  Return {| en := en'; hi := hi'; te := te'; ta := ta';
            kn := kn'; bn := bn'; mr := mr' |}.

(** Lines 296-328. *)
Definition normalizeOn (stack : nat) (parsed0 : value) : outcome AnalysisResult :=
  let parsed := if truthy parsed0 then parsed0 else VObj [] in
  if assignable parsed then
    meds <- normalizeMedicationsOn stack (getProp parsed (lit "medications")) ;;
    md <- normalizeMetadataOn stack (getProp parsed (lit "metadata")) ;;
    summary <- normalizeSummaryOn stack (getProp parsed (lit "bhashini_summary")) ;;
    disclaimer' <- sanitizeStringOn stack (getProp parsed (lit "disclaimer")) ;;
    Return {|
      metadata := md;
      medications := meds;
      bhashini_summary := summary;
      disclaimer := disclaimer'
    |}
  else Throw TypeError.

(** [analyzePrescription] with [stack] activations left for the sanitiser. *)
Definition analyzePrescriptionOn (stack : nat) (ai : outcome (option jsstring))
  : outcome AnalysisResult :=
  response_text <- ai ;;
  match response_text with
  | None => Throw (Error "No response text from AI")
  | Some text =>
      if nonEmpty text then parsed <- extractJson text ;; normalizeOn stack parsed
      else Throw (Error "No response text from AI")
  end.

(** ** findNearestStore on a finite stack *)

(** The callback of [forEach] on line 360: lines 362, 363 and 364-367 in
    their order. *)
Definition scanChunkOn (stack : nat) (st : Scan) (chunk : value) : outcome Scan :=
  match chunk with
  | VNull | VUndefined => Throw TypeError
  | _ =>
      let maps := getProp chunk (lit "maps") in
      if truthy maps then
        let uri := getProp maps (lit "uri") in
        let title := getProp maps (lit "title") in
        let s := match getProp maps (lit "placeAnswerSources") with
                 | VNull | VUndefined => VUndefined
                 | sources => getProp sources (lit "reviewSnippets")
                 end in
        mapUri' <- (if truthy uri then sanitizeStringOn stack uri
                    else Return (scan_mapUri st)) ;;
        name' <- (if truthy title then sanitizeStringOn stack title
                  else Return (scan_name st)) ;;
        snippets' <- match s with
                     | VArr vs =>
                         rs <- mapT (sanitizeStringOn stack) vs ;;
                         Return (scan_snippets st ++ lit " " ++ join (lit ". ") rs)
                     | _ => Return (scan_snippets st)
                     end ;;
        Return {| scan_mapUri := mapUri'; scan_name := name';
                  scan_snippets := snippets' |}
      else Return st
  end.

Fixpoint scanChunksOn (stack : nat) (st : Scan) (chunks : list value) : outcome Scan :=
  match chunks with
  | [] => Return st
  | chunk :: r => st' <- scanChunkOn stack st chunk ;; scanChunksOn stack st' r
  end.

(** Lines 350-386. *)
Definition extractStoreOn (stack : nat) (lat lng : number)
    (response : GenerateContentResponse) : outcome (option StoreLocation) :=
  match candidates response with
  | None | Some [] => Return None
  | Some (first :: _) =>
      st <- scanChunksOn stack scanStart (chunksOf first) ;;
      let rawText := match text response with Some t => t | None => [] end in
      address0 <- sanitizeStringOn stack (VStr (trim (removeAll (lit "*") rawText))) ;;
      let address1 :=
        if negb (nonEmpty address0) || (length address0 <? 5)
        then lit "Jan Aushadhi Kendra (Verified Store)"
             ++ (if nonEmpty (scan_snippets st) then lit ": " ++ scan_snippets st else [])
        else address0 in
      let mapUri1 :=
        if nonEmpty (scan_mapUri st) then scan_mapUri st else searchUrl lat lng in
      name1 <- sanitizeStringOn stack (VStr (scan_name st)) ;;
      address2 <- sanitizeStringOn stack (VStr address1) ;;
      mapUri2 <- sanitizeStringOn stack (VStr mapUri1) ;;
      Return (Some {|
        name := if nonEmpty name1 then name1 else placeholder;
        address := address2;
        mapUri := mapUri2
      |})
  end.

(** [findNearestStore]: the [catch] of line 387 also catches a RangeError. *)
Definition findNearestStoreOn (stack : nat) (lat lng : number)
    (ai : outcome GenerateContentResponse) : outcome (option StoreLocation) :=
  match response <- ai ;; extractStoreOn stack lat lng response with
  | Return r => Return r
  | Throw _ => Return None
  end.

(* ===================================================================== *)
(** * Notions used to state the properties *)
(* ===================================================================== *)



(** The source of a metadata field: [parsed.metadata.key] after the
    defaults of lines 296 and 297. *)
Definition sourceMetadata (parsed : value) (key : jsstring) : value :=
  let p := if truthy parsed then parsed else VObj [] in
  let md := getProp p (lit "metadata") in
  getProp (if truthy md then md else VObj []) key.

(** All the strings of a result. *)
Definition medicationFields (m : Medication) : list jsstring :=
  [prescribed_brand m; active_salt m; jan_aushadhi_generic m;
   brand_price_est m; jan_aushadhi_price_est m; savings_est m].

Definition resultFields (r : AnalysisResult) : list jsstring :=
  [doctor (metadata r); date (metadata r); currency (metadata r);
   en (bhashini_summary r); hi (bhashini_summary r); te (bhashini_summary r);
   ta (bhashini_summary r); kn (bhashini_summary r); bn (bhashini_summary r);
   mr (bhashini_summary r); disclaimer r]
  ++ flat_map medicationFields (medications r).

(** [chunk.maps.uri] and [chunk.maps.title] as the scan of line 360 sees
    them: [undefined] when [chunk.maps] is falsy. *)
Definition chunkUri (chunk : value) : value :=
  getProp (getProp chunk (lit "maps")) (lit "uri").

Definition chunkTitle (chunk : value) : value :=
  getProp (getProp chunk (lit "maps")) (lit "title").

(** The text of the response with its asterisks removed, trimmed
    (line 372). *)
Definition cleanAnswer (response : GenerateContentResponse) : jsstring :=
  trim (removeAll (lit "*") (match text response with Some t => t | None => [] end)).

(** The test of line 215: whether a string is handed to [JSON.parse]. *)
Definition attempted (s : jsstring) : bool :=
  let trimmed := trim s in
  str_eqb trimmed artifact
  || startsWith trimmed (qlit "{'")
  || startsWith trimmed (lit "{").

(** A bound on the activations of [sanitizeString] that a value needs: one,
    plus the deepest of its elements or properties; a string that is
    handed to [JSON.parse] is counted for its length, which bounds the
    depth of whatever value it denotes. *)
Fixpoint depth (v : value) : nat :=
  match v with
  | VStr s => if attempted s then S (length s) else 1
  | VArr elems => S (list_max (map depth elems))
  | VObj props => S (list_max (map (fun kv => depth (snd kv)) props))
  | _ => 1
  end.

(** [v] inside [n] one-element arrays. *)
Fixpoint nest (n : nat) (v : value) : value :=
  match n with
  | 0 => v
  | S k => VArr [nest k v]
  end.



(** The review snippets of a chunk as the scan of line 360 reads them:
    [chunk.maps.placeAnswerSources?.reviewSnippets] when [chunk.maps] is
    truthy and the snippets are an array. *)
Definition chunkReviews (chunk : value) : option (list value) :=
  let maps := getProp chunk (lit "maps") in
  if truthy maps then
    match match getProp maps (lit "placeAnswerSources") with
          | VNull | VUndefined => VUndefined
          | sources => getProp sources (lit "reviewSnippets")
          end with
    | VArr vs => Some vs
    | _ => None
    end
  else None.

(** What the chunks add to [snippets], chunk after chunk: for each array of
    reviews a space and its sanitised entries, separated by a full stop and
    a space. *)
Definition reviewText (chunks : list value) : jsstring :=
  concat (map (fun chunk =>
                 match chunkReviews chunk with
                 | Some vs => lit " " ++ join (lit ". ") (map sanitizeString vs)
                 | None => []
                 end) chunks).

Definition hasReviews (chunk : value) : bool :=
  match chunkReviews chunk with Some _ => true | None => false end.

End Model.

(* ===================================================================== *)
(** * An instance of the host *)
(* ===================================================================== *)

(** Numbers are integers, printed in decimal: the instance agrees with the
    host on integer literals whose magnitude is below 2^53.  Lower-casing
    is the Unicode default conversion on Basic Latin and Latin-1, and on
    U+0130 (capital I with dot above), the one code point whose lower case
    is two code units: U+0069 U+0307; other code units are left as they
    are.  The instance serves to evaluate the definitions on examples, all
    of which stay in these ranges. *)
Module IntegerHost.

Fixpoint uintDigits (u : Decimal.uint) : jsstring :=
  match u with
  | Decimal.Nil => []
  | Decimal.D0 r => 48%N :: uintDigits r
  | Decimal.D1 r => 49%N :: uintDigits r
  | Decimal.D2 r => 50%N :: uintDigits r
  | Decimal.D3 r => 51%N :: uintDigits r
  | Decimal.D4 r => 52%N :: uintDigits r
  | Decimal.D5 r => 53%N :: uintDigits r
  | Decimal.D6 r => 54%N :: uintDigits r
  | Decimal.D7 r => 55%N :: uintDigits r
  | Decimal.D8 r => 56%N :: uintDigits r
  | Decimal.D9 r => 57%N :: uintDigits r
  end.

Definition natural (n : N) : jsstring :=
  match uintDigits (N.to_uint n) with
  | [] => [48%N]
  | ds => ds
  end.

Definition toString (z : Z) : jsstring :=
  match z with
  | Zneg p => 45%N :: natural (Npos p)
  | _ => natural (Z.to_N z)
  end.

Fixpoint digitsValue (acc : N) (s : jsstring) : N :=
  match s with
  | c :: r => if isDigit c then digitsValue (acc * 10 + (c - 48)) r else acc
  | [] => acc
  end.

Definition ofLiteral (s : jsstring) : Z :=
  match s with
  | c :: r => if (c =? 45)%N then Z.opp (Z.of_N (digitsValue 0 r))
              else Z.of_N (digitsValue 0 s)
  | [] => 0%Z
  end.

Lemma natural_head (n : N) : numeralHead (natural n) = true.
Proof.
  unfold natural.
  destruct (N.to_uint n); reflexivity.
Qed.

Definition lowerUnit (c : char16) : jsstring :=
  (if (65 <=? c) && (c <=? 90) then [c + 32]
   else if (192 <=? c) && (c <=? 222) && negb (c =? 215) then [c + 32]
   else if c =? 304 then [105; 775]
   else [c])%N.

Definition lower (s : jsstring) : jsstring := flat_map lowerUnit s.

Lemma lower_ascii (s : jsstring) :
  forallb isAscii s = true -> lower s = map lowerAscii s.
Proof.
  induction s as [|c s IH]; simpl; [reflexivity|].
  intros Hs. apply andb_true_iff in Hs as [Hc Hs].
  unfold lower in *. rewrite (IH Hs).
  replace (lowerUnit c) with [lowerAscii c]; [reflexivity|].
  unfold lowerUnit, lowerAscii, isAscii in *.
  apply N.ltb_lt in Hc.
  destruct ((65 <=? c) && (c <=? 90))%N; [reflexivity|].
  destruct (N.leb_spec 192 c); simpl; [lia|].
  destruct (N.eqb_spec c 304); [lia|reflexivity].
Qed.

#[export] Instance host : Host := {
  number := Z;
  Number_ofLiteral := ofLiteral;
  Number_toString := toString;
  Number_toBoolean := fun z => negb (Z.eqb z 0);
  Number_toString_numeral := fun z =>
    match z with
    | Zneg p => eq_refl
    | Z0 => natural_head 0
    | Zpos p => natural_head (Npos p)
    end;
  toLowerCase := lower;
  toLowerCase_ascii := lower_ascii
}.

End IntegerHost.

(** ** Inputs of the worked examples *)

(** The fenced text of the specification: the opening fence, a line feed,
    the object, a line feed, the closing fence. *)
Definition fenced : jsstring :=
  lit "```json" ++ [10%N] ++ qlit "{'a':1}" ++ [10%N] ++ lit "```".

Definition objectA1 : @value IntegerHost.host :=
  VObj [(lit "a", VNum (H := IntegerHost.host) 1%Z)].

(** A medication entry with only a brand, and what it is normalised to. *)
Definition medication (brand : jsstring) : Medication :=
  {| prescribed_brand := brand; active_salt := []; jan_aushadhi_generic := [];
     brand_price_est := []; jan_aushadhi_price_est := []; savings_est := [] |}.

Definition entry (brand : jsstring) : @value IntegerHost.host :=
  VObj [(lit "prescribed_brand", VStr brand)].

(** What [normalize] makes of the empty object. *)
Definition defaultResult : AnalysisResult :=
  {| metadata := {| doctor := lit "Not provided in image";
                    date := lit "Not provided in image";
                    currency := lit "INR" |};
     medications := [];
     bhashini_summary := {| en := lit "Analysis complete."; hi := []; te := [];
                            ta := []; kn := []; bn := []; mr := [] |};
     disclaimer := [] |}.

(** A URI string that is the JSON text of an object whose one field [k]
    is an array of two strings, the two halves of the JSON text of a
    two-field object.  ([qlit] reads an apostrophe as a quotation mark.) *)
Definition brokenUri : jsstring :=
  qlit "{'k':['{\'a\':\'x\'','\'b\':\'y\'}']}".

Definition brokenResponse : @GenerateContentResponse IntegerHost.host :=
  {| candidates :=
       Some [ {| groundingMetadata :=
                   Some {| groundingChunks :=
                             Some [VObj [(lit "maps", VObj [(lit "uri", VStr brokenUri)])]] |} |} ];
     text := Some (lit "Shop 4, Main Road") |}.

(** A response as the provider gives it: one chunk with a URI and a
    title, and an answer with emphasis marks; and the store it yields. *)
Definition goodChunk : @value IntegerHost.host :=
  VObj [(lit "maps",
         VObj [(lit "uri", VStr (lit "https://maps.google.com/?cid=1"));
               (lit "title", VStr (lit "Kendra 12"))])].

Definition goodCandidate : @Candidate IntegerHost.host :=
  {| groundingMetadata := Some {| groundingChunks := Some [goodChunk] |} |}.

Definition goodResponse : @GenerateContentResponse IntegerHost.host :=
  {| candidates := Some [goodCandidate];
     text := Some (lit "**Shop 4**, Main Road") |}.

Definition goodStore : StoreLocation :=
  {| name := lit "Kendra 12";
     address := lit "Shop 4, Main Road";
     mapUri := lit "https://maps.google.com/?cid=1" |}.

(** The same response with a [null] after its chunk. *)
Definition holedCandidate : @Candidate IntegerHost.host :=
  {| groundingMetadata := Some {| groundingChunks := Some [goodChunk; VNull] |} |}.

Definition holedResponse : @GenerateContentResponse IntegerHost.host :=
  {| candidates := Some [holedCandidate];
     text := Some (lit "**Shop 4**, Main Road") |}.

(** A response with a candidate and nothing else, and the store it
    yields at latitude 12 and longitude 77. *)
Definition bareCandidate : @Candidate IntegerHost.host :=
  {| groundingMetadata := None |}.

Definition bareResponse : @GenerateContentResponse IntegerHost.host :=
  {| candidates := Some [bareCandidate]; text := None |}.

Definition bareStore : StoreLocation :=
  {| name := lit "Jan Aushadhi Kendra";
     address := lit "Jan Aushadhi Kendra (Verified Store)";
     mapUri := lit "https://www.google.com/maps/search/Pradhan+Mantri+Bhartiya+Janaushadhi+Kendra/@12,77,15z" |}.

(** A response without an answer whose two chunks carry review snippets,
    and the store it yields. *)
Definition reviewedChunk (reviews : list jsstring) : @value IntegerHost.host :=
  VObj [(lit "maps",
         VObj [(lit "placeAnswerSources",
                VObj [(lit "reviewSnippets", VArr (map VStr reviews))])])].

Definition reviewedCandidate : @Candidate IntegerHost.host :=
  {| groundingMetadata :=
       Some {| groundingChunks :=
                 Some [reviewedChunk [lit "good"; lit "cheap"]; goodChunk;
                       reviewedChunk [lit "open late"]] |} |}.

Definition reviewedResponse : @GenerateContentResponse IntegerHost.host :=
  {| candidates := Some [reviewedCandidate]; text := None |}.

Definition reviewedStore : StoreLocation :=
  {| name := lit "Kendra 12";
     address := lit "Jan Aushadhi Kendra (Verified Store):  good. cheap open late";
     mapUri := lit "https://maps.google.com/?cid=1" |}.

(** Two parsed responses and their results. *)
Definition twoBrands : @value IntegerHost.host :=
  VObj [(lit "medications",
         VArr [entry (lit "Not provided in image"); entry (lit "Crocin")])].

Definition crocinResult : AnalysisResult :=
  {| metadata := metadata defaultResult;
     medications := [medication (lit "Crocin")];
     bhashini_summary := bhashini_summary defaultResult;
     disclaimer := [] |}.

Definition doctorOnly : @value IntegerHost.host :=
  VObj [(lit "metadata", VObj [(lit "doctor", VStr (lit "Dr. Rao"))])].

Definition doctorResult : AnalysisResult :=
  {| metadata := {| doctor := lit "Dr. Rao";
                    date := lit "Not provided in image";
                    currency := lit "INR" |};
     medications := [];
     bhashini_summary := bhashini_summary defaultResult;
     disclaimer := [] |}.

(** A speech response with one part of inline data. *)
Definition speechResponse : SpeechResponse :=
  {| speechCandidates :=
       Some [ {| content :=
                   Some {| parts :=
                             Some [ {| inlineData :=
                                         Some {| data := Some (lit "UklGRg==") |} |} ] |} |} ] |}.



(** The error of a refused permission. *)
Definition deniedError : @PositionError IntegerHost.host :=
  {| code := 1; message := VStr (lit "User denied Geolocation") |}.



(* ===================================================================== *)
(** * Properties of the host strings *)
(* ===================================================================== *)

Lemma str_eqb_eq (a b : jsstring) : str_eqb a b = true <-> a = b.
Proof.
  revert b; induction a as [|x a IH]; intros [|y b]; simpl; split;
    try congruence; try reflexivity.
  - intros Hxy. apply andb_true_iff in Hxy as [Hx Ha].
    apply N.eqb_eq in Hx. apply IH in Ha. congruence.
  - intros Heq. injection Heq as -> ->.
    rewrite N.eqb_refl. simpl. now apply IH.
Qed.

Lemma str_eqb_refl (a : jsstring) : str_eqb a a = true.
Proof. now apply str_eqb_eq. Qed.

Lemma str_eqb_neq (a b : jsstring) : str_eqb a b = false <-> a <> b.
Proof.
  split.
  - intros Hf Heq. apply str_eqb_eq in Heq. congruence.
  - intros Hne. destruct (str_eqb a b) eqn:E; [|reflexivity].
    apply str_eqb_eq in E. contradiction.
Qed.


Lemma nonEmpty_true (s : jsstring) : nonEmpty s = true <-> s <> [].
Proof. destruct s; unfold nonEmpty; simpl; split; congruence. Qed.

Lemma trimStart_clean (s : jsstring) : clean (trimStart s) = true.
Proof.
  induction s as [|c r IH]; simpl; [reflexivity|].
  destruct (isWhiteSpace c) eqn:E; [exact IH|].
  simpl. now rewrite E.
Qed.

Lemma clean_trimStart (s : jsstring) : clean s = true -> trimStart s = s.
Proof.
  destruct s as [|c r]; simpl; [reflexivity|].
  now destruct (isWhiteSpace c).
Qed.

Lemma trimStart_split (s : jsstring) :
  exists ws, s = ws ++ trimStart s /\ forallb isWhiteSpace ws = true.
Proof.
  induction s as [|c r (ws & Hs & Hws)]; simpl.
  - now exists [].
  - destruct (isWhiteSpace c) eqn:E.
    + exists (c :: ws). simpl. rewrite E, Hws. split; [congruence|reflexivity].
    + now exists [].
Qed.

Lemma trimStart_length (s : jsstring) : length (trimStart s) <= length s.
Proof.
  destruct (trimStart_split s) as (ws & Hs & _).
  rewrite Hs at 2. rewrite length_app. lia.
Qed.

Lemma trim_length (s : jsstring) : length (trim s) <= length s.
Proof.
  unfold trim, trimEnd. rewrite length_rev.
  pose proof (trimStart_length (rev (trimStart s))) as H1.
  rewrite length_rev in H1.
  pose proof (trimStart_length s). lia.
Qed.

(** A trimmed string begins and ends with no white space. *)
Lemma trim_clean (s : jsstring) :
  clean (trim s) = true /\ clean (rev (trim s)) = true.
Proof.
  unfold trim, trimEnd. rewrite rev_involutive. split.
  - destruct (trimStart_split (rev (trimStart s))) as (ws & Hs & _).
    pose proof (trimStart_clean s) as Hc.
    apply (f_equal (@rev char16)) in Hs.
    rewrite rev_involutive, rev_app_distr in Hs.
    destruct (rev (trimStart (rev (trimStart s)))) as [|c r]; [reflexivity|].
    rewrite Hs in Hc. exact Hc.
  - apply trimStart_clean.
Qed.

Lemma trim_fixed (s : jsstring) :
  clean s = true -> clean (rev s) = true -> trim s = s.
Proof.
  intros H1 H2. unfold trim, trimEnd.
  rewrite (clean_trimStart _ H1), (clean_trimStart _ H2).
  apply rev_involutive.
Qed.

Lemma trim_idempotent (s : jsstring) : trim (trim s) = trim s.
Proof. apply trim_fixed; apply trim_clean. Qed.

Lemma trim_nil : trim [] = [].
Proof. reflexivity. Qed.

Lemma trim_decompose (s : jsstring) :
  exists ws ws', s = ws ++ trim s ++ ws'
    /\ (forall c, In c ws -> isWhiteSpace c = true)
    /\ (forall c, In c ws' -> isWhiteSpace c = true).
Proof.
  destruct (trimStart_split s) as (ws & Hs & Hws).
  destruct (trimStart_split (rev (trimStart s))) as (ws2 & Hs2 & Hws2).
  exists ws, (rev ws2). repeat split.
  - rewrite Hs at 1. f_equal. unfold trim, trimEnd.
    rewrite <- rev_app_distr, <- Hs2. symmetry. apply rev_involutive.
  - intros c Hc. rewrite forallb_forall in Hws. auto.
  - intros c Hc. rewrite forallb_forall in Hws2. apply Hws2.
    now apply in_rev.
Qed.

(** Neither a numeral's first character nor a comma is white space. *)
Lemma numeral_not_space (c : char16) (r : jsstring) :
  numeralHead (c :: r) = true -> isWhiteSpace c = false.
Proof.
  unfold numeralHead, isWhiteSpace. intros Hn.
  apply not_true_is_false. intros Hw.
  repeat rewrite ?orb_true_iff, ?andb_true_iff, ?N.leb_le, ?N.eqb_eq in Hn.
  repeat rewrite ?orb_true_iff, ?andb_true_iff, ?N.leb_le, ?N.eqb_eq in Hw.
  lia.
Qed.

(** Trimming keeps a first character that is not white space. *)
Lemma trim_head (c : char16) (r : jsstring) :
  isWhiteSpace c = false -> exists t, trim (c :: r) = c :: t.
Proof.
  intros Hc. destruct (trim_decompose (c :: r)) as (ws & ws' & Hs & Hws & Hws').
  destruct ws as [|x ws].
  - destruct (trim (c :: r)) as [|y t].
    + simpl in Hs. rewrite <- Hs in Hws'.
      rewrite (Hws' c (or_introl eq_refl)) in Hc. discriminate.
    + simpl in Hs. injection Hs as -> _. now exists t.
  - simpl in Hs. injection Hs as <- _.
    rewrite (Hws c (or_introl eq_refl)) in Hc. discriminate.
Qed.

Lemma startsWith_app (s p : jsstring) :
  startsWith s p = true <-> exists r, s = p ++ r.
Proof.
  revert s; induction p as [|a p IH]; intros s; simpl.
  - split; [intros _; now exists s | now destruct s].
  - destruct s as [|b s]; split.
    + discriminate.
    + intros (r & Hr). discriminate.
    + intros Hab. apply andb_true_iff in Hab as [Ha Hp].
      apply N.eqb_eq in Ha. apply IH in Hp as (r & ->). exists r. now subst.
    + intros (r & Hr). injection Hr as Hb Hs. subst b s.
      apply andb_true_iff. split; [apply N.eqb_refl|].
      apply IH. now exists r.
Qed.

Lemma skip_ws_length (s : jsstring) : length (skip_ws s) <= length s.
Proof.
  induction s as [|c r IH]; simpl; [lia|].
  destruct (isJsonSpace c); simpl; lia.
Qed.

Lemma skip_ws_cons (s r : jsstring) (c : char16) :
  skip_ws s = c :: r -> S (length r) <= length s.
Proof.
  intros E. pose proof (skip_ws_length s) as Hl. rewrite E in Hl. exact Hl.
Qed.

(* ===================================================================== *)
(** * Properties of JSON.parse *)
(* ===================================================================== *)

Section Parser.

Context {H : Host}.

Lemma consChar_some (c : char16) (r : option (jsstring * jsstring)) str rest :
  consChar c r = Some (str, rest) ->
  exists str', str = c :: str' /\ r = Some (str', rest).
Proof.
  destruct r as [[str' rest']|]; simpl; [|discriminate].
  intros E. injection E as <- <-. now exists str'.
Qed.

(** A string literal is at least as long as the string it denotes, plus
    its closing quotation mark. *)
Lemma parse_chars_length (s : jsstring) : forall str rest,
  parse_chars s = Some (str, rest) -> S (length str + length rest) <= length s.
Proof.
  remember (length s) as n eqn:Hn. revert s Hn.
  induction n as [n IH] using lt_wf_ind. intros s Hn str rest.
  destruct s as [|c r]; simpl; [discriminate|].
  destruct (c =? 34)%N.
  { intros E. injection E as <- <-. simpl in *. lia. }
  destruct (c =? 92)%N.
  - destruct r as [|e r1]; [discriminate|].
    destruct (e =? 117)%N.
    + destruct r1 as [|h1 [|h2 [|h3 [|h4 r2]]]]; try discriminate.
      destruct (hex4 h1 h2 h3 h4); [|discriminate].
      intros E. apply consChar_some in E as (str' & -> & E).
      eapply IH in E; [| |reflexivity]; simpl in *; lia.
    + destruct (escape e); [|discriminate].
      intros E. apply consChar_some in E as (str' & -> & E).
      eapply IH in E; [| |reflexivity]; simpl in *; lia.
  - destruct (c <? 32)%N; [discriminate|].
    intros E. apply consChar_some in E as (str' & -> & E).
    eapply IH in E; [| |reflexivity]; simpl in *; lia.
Qed.

Lemma span_digits_length (s : jsstring) : forall d r,
  span_digits s = (d, r) -> length d + length r = length s.
Proof.
  induction s as [|c s IH]; simpl; intros d r E.
  - injection E as <- <-. reflexivity.
  - destruct (isDigit c).
    + destruct (span_digits s) as [d' r'] eqn:E'.
      injection E as <- <-. specialize (IH _ _ eq_refl). simpl. lia.
    + injection E as <- <-. reflexivity.
Qed.

Lemma parse_int_length (s : jsstring) i r :
  parse_int s = Some (i, r) -> S (length r) <= length s.
Proof.
  destruct s as [|c s]; simpl; [discriminate|].
  destruct (c =? 48)%N.
  - intros E. injection E as <- <-. lia.
  - destruct (isDigit c); [|discriminate].
    destruct (span_digits s) as [d r'] eqn:E'. apply span_digits_length in E'.
    intros E. injection E as <- <-. lia.
Qed.

Lemma parse_frac_length (s : jsstring) f r :
  parse_frac s = Some (f, r) -> length r <= length s.
Proof.
  destruct s as [|c s]; simpl.
  - intros E. injection E as <- <-. simpl. lia.
  - destruct (c =? 46)%N.
    + destruct (span_digits s) as [d r'] eqn:E'. apply span_digits_length in E'.
      destruct d; [discriminate|].
      intros E. injection E as <- <-. lia.
    + intros E. injection E as <- <-. simpl. lia.
Qed.

Lemma parse_exp_length (s : jsstring) e r :
  parse_exp s = Some (e, r) -> length r <= length s.
Proof.
  destruct s as [|c s]; simpl.
  - intros E. injection E as <- <-. simpl. lia.
  - destruct ((c =? 101) || (c =? 69))%N.
    + destruct s as [|c2 r2].
      * simpl. discriminate.
      * destruct ((c2 =? 43) || (c2 =? 45))%N.
        -- destruct (span_digits r2) as [d r'] eqn:E'. apply span_digits_length in E'.
           destruct d; [discriminate|].
           intros E. injection E as <- <-. simpl. lia.
        -- destruct (span_digits (c2 :: r2)) as [d r'] eqn:E'.
           apply span_digits_length in E'.
           destruct d; [discriminate|].
           intros E. injection E as <- <-. simpl in *. lia.
    + intros E. injection E as <- <-. simpl. lia.
Qed.

Lemma parse_number_length (s : jsstring) t r :
  parse_number s = Some (t, r) -> S (length r) <= length s.
Proof.
  unfold parse_number.
  set (p := match s with
            | c :: r0 => if (c =? 45)%N then ([c], r0) else ([], s)
            | [] => ([], s)
            end).
  assert (Hp : length (snd p) <= length s).
  { subst p. destruct s as [|c r0]; simpl; [lia|].
    destruct (c =? 45)%N; simpl; lia. }
  destruct p as [sign s1]. simpl in Hp.
  destruct (parse_int s1) as [[i s2]|] eqn:Ei; [|discriminate].
  destruct (parse_frac s2) as [[f s3]|] eqn:Ef; [|discriminate].
  destruct (parse_exp s3) as [[e s4]|] eqn:Ee; [|discriminate].
  intros E. injection E as <- <-.
  apply parse_int_length in Ei. apply parse_frac_length in Ef.
  apply parse_exp_length in Ee. lia.
Qed.

Ltac break_hyp E :=
  repeat match type of E with
         | context [match ?x with _ => _ end] => destruct x eqn:?; try discriminate E
         end.

Ltac lengths :=
  repeat match goal with
         | E : skip_ws _ = _ :: _ |- _ => apply skip_ws_cons in E
         | E : parse_chars _ = Some _ |- _ => apply parse_chars_length in E
         | E : parse_number _ = Some _ |- _ => apply parse_number_length in E
         end.

(** What the parser builds is no larger than the text it consumed. *)
Lemma parse_bound (n : nat) :
  (forall s v rest, parse_value n s = POk v rest ->
     weight v + length rest <= length s) /\
  (forall s vs rest, parse_elements n s = POk vs rest ->
     S (list_sum (map weight vs) + length rest) <= length s) /\
  (forall s ms rest, parse_members n s = POk ms rest ->
     S (list_sum (map (fun kv => weight (snd kv)) ms) + length rest) <= length s).
Proof.
  induction n as [|n (IHv & IHe & IHm)]; [repeat split; discriminate|].
  repeat split; intros s x rest E; cbn [parse_value parse_elements parse_members] in E;
    unfold value_body, elements_body, members_body, liftP in E;
    break_hyp E; injection E as <- <-;
    repeat match goal with
           | E : parse_value n _ = POk _ _ |- _ => apply IHv in E
           | E : parse_elements n _ = POk _ _ |- _ => apply IHe in E
           | E : parse_members n _ = POk _ _ |- _ => apply IHm in E
           end;
    lengths; simpl in *;
    repeat match goal with
           | |- context [match ?l with [] => _ | _ :: _ => _ end] =>
               destruct l; simpl in *
           end;
    lia.
Qed.

(** ** The fuel of the parser is immaterial *)

Lemma stable_trans {A : Type} (r1 r2 r3 : presult A) :
  stable r1 r2 -> stable r2 r3 -> stable r1 r3.
Proof.
  intros [->| ->]; [now left|]. trivial.
Qed.

Lemma liftP_stable {A B : Type} (f : A -> B) (r r' : presult A) :
  stable r r' -> stable (liftP f r) (liftP f r').
Proof.
  intros [->| ->]; [now left | now right].
Qed.

Ltac same_scrutinee :=
  repeat match goal with
         | |- stable (match ?x with _ => _ end) _ => destruct x
         | |- stable (liftP _ _) (liftP _ _) => apply liftP_stable
         end;
  try (now right).

Lemma value_body_stable pe pe' pm pm' :
  (forall s, stable (pe s) (pe' s)) ->
  (forall s, stable (pm s) (pm' s)) ->
  forall s, stable (value_body pe pm s) (value_body pe' pm' s).
Proof.
  intros He Hm s. unfold value_body. same_scrutinee; auto.
Qed.

Lemma elements_body_stable pv pv' pe pe' :
  (forall s, stable (pv s) (pv' s)) ->
  (forall s, stable (pe s) (pe' s)) ->
  forall s, stable (elements_body pv pe s) (elements_body pv' pe' s).
Proof.
  intros Hv He s. unfold elements_body.
  destruct (Hv s) as [E|E]; rewrite E; [now left|].
  same_scrutinee; auto.
Qed.

Lemma members_body_stable pv pv' pm pm' :
  (forall s, stable (pv s) (pv' s)) ->
  (forall s, stable (pm s) (pm' s)) ->
  forall s, stable (members_body pv pm s) (members_body pv' pm' s).
Proof.
  intros Hv Hm s. unfold members_body.
  repeat match goal with
         | |- stable (match pv ?a with _ => _ end) _ =>
             destruct (Hv a) as [E|E]; rewrite E; [now left|]
         | |- stable (match ?x with _ => _ end) _ => destruct x
         | |- stable (liftP _ _) (liftP _ _) => apply liftP_stable
         end;
  try (now right); auto.
Qed.

Lemma parse_fuel_step (n : nat) :
  (forall s, stable (parse_value n s) (parse_value (S n) s)) /\
  (forall s, stable (parse_elements n s) (parse_elements (S n) s)) /\
  (forall s, stable (parse_members n s) (parse_members (S n) s)).
Proof.
  induction n as [|n (IHv & IHe & IHm)]; [repeat split; intros; now left|].
  repeat split; intros s.
  - now apply value_body_stable.
  - now apply elements_body_stable.
  - now apply members_body_stable.
Qed.

Lemma parse_fuel_le (n m : nat) (s : jsstring) :
  n <= m -> stable (parse_value n s) (parse_value m s).
Proof.
  induction 1 as [|m _ IH]; [now right|].
  eapply stable_trans; [exact IH|]. apply parse_fuel_step.
Qed.

(** Twice the length of the input is enough fuel. *)
Lemma parse_fuel_enough (n : nat) :
  (forall s, 2 * length s + 1 <= n -> parse_value n s <> PFuel) /\
  (forall s, 2 * length s + 2 <= n -> parse_elements n s <> PFuel) /\
  (forall s, 2 * length s + 2 <= n -> parse_members n s <> PFuel).
Proof.
  induction n as [|n (IHv & IHe & IHm)]; [repeat split; intros; lia|].
  destruct (parse_bound n) as (Bv & Be & Bm).
  repeat split; intros s Hn; cbn [parse_value parse_elements parse_members];
    unfold value_body, elements_body, members_body, liftP;
    repeat match goal with
           | |- context [match ?x with _ => _ end] => destruct x eqn:?
           end;
    try discriminate; exfalso;
    repeat match goal with
           | E : parse_value n _ = POk _ _ |- _ => apply Bv in E
           | E : parse_elements n _ = POk _ _ |- _ => apply Be in E
           | E : parse_members n _ = POk _ _ |- _ => apply Bm in E
           end;
    lengths;
    match goal with
    | E : parse_value n ?a = PFuel |- _ => apply (IHv a); [|exact E]
    | E : parse_elements n ?a = PFuel |- _ => apply (IHe a); [|exact E]
    | E : parse_members n ?a = PFuel |- _ => apply (IHm a); [|exact E]
    end;
    simpl in *; lia.
Qed.

(** [JSON_parse] does not depend on the amount of fuel it picks. *)
Theorem JSON_parse_fuel (s : jsstring) (n : nat) :
  2 * length s + 1 <= n -> parse_value n s = parse_value (2 * length s + 3) s.
Proof.
  intros Hn.
  destruct (Nat.le_ge_cases n (2 * length s + 3)) as [Hle|Hge].
  - destruct (parse_fuel_le s Hle) as [E|E]; [|exact E].
    now apply (proj1 (parse_fuel_enough n)) in E.
  - destruct (parse_fuel_le s Hge) as [E|E]; [|now symmetry].
    apply (proj1 (parse_fuel_enough _)) in E; [contradiction|lia].
Qed.

(** The value [JSON.parse] returns is no larger than its text. *)
Theorem JSON_parse_weight (s : jsstring) (v : value) :
  JSON_parse s = Some v -> weight v <= length s.
Proof.
  unfold JSON_parse.
  destruct (parse_value (2 * length s + 3) s) as [v' rest| |] eqn:E; try discriminate.
  apply (proj1 (parse_bound _)) in E.
  destruct (skip_ws rest); [|discriminate].
  intros Hv. injection Hv as <-. lia.
Qed.

End Parser.

(* ===================================================================== *)
(** * Properties of sanitizeString *)
(* ===================================================================== *)

Section Sanitizer.

Context {H : Host}.

(** ** Sizes of the values the sanitiser descends into *)

Lemma weight_elem (v : value) (elems : list value) :
  In v elems -> weight v <= list_sum (map weight elems).
Proof.
  induction elems as [|w r IH]; simpl; [contradiction|].
  intros [->|Hin]; [lia|]. specialize (IH Hin). lia.
Qed.

Lemma weight_lookup (o : list (jsstring * value)) (k : jsstring) (w : value) :
  lookup o k = Some w ->
  weight w <= list_sum (map (fun kv => weight (snd kv)) o).
Proof.
  induction o as [|[k' v] r IH]; simpl; [discriminate|].
  destruct (lookup r k) as [later|].
  - intros E. injection E as ->. specialize (IH eq_refl). lia.
  - destruct (str_eqb k' k); [|discriminate].
    intros E. injection E as ->. lia.
Qed.

Lemma lookup_key (o : list (jsstring * value)) (k : jsstring) :
  In k (map fst o) -> exists w, lookup o k = Some w.
Proof.
  induction o as [|[k' v] r IH]; simpl; [contradiction|].
  intros [->|Hin].
  - destruct (lookup r k) as [later|]; [now exists later|].
    rewrite str_eqb_refl. now exists v.
  - destruct (IH Hin) as (w & ->). now exists w.
Qed.

Lemma distinct_head (ks : list jsstring) (k : jsstring) (r : list jsstring) :
  distinct ks = k :: r -> In k ks.
Proof.
  destruct ks as [|k' ks']; simpl; [discriminate|].
  intros E. injection E as -> _. now left.
Qed.

Lemma weight_single_key (o : list (jsstring * value)) (k : jsstring) :
  Object_keys o = [k] -> weight (getProp (VObj o) k) < weight (VObj o).
Proof.
  intros E. apply distinct_head in E. apply lookup_key in E as (w & E).
  simpl. rewrite E. apply weight_lookup in E. lia.
Qed.

Lemma firstPresent_lookup (o : list (jsstring * value)) (keys : list jsstring) (w : value) :
  firstPresent (VObj o) keys = Some w -> exists key, lookup o key = Some w.
Proof.
  induction keys as [|key r IH]; simpl; [discriminate|].
  destruct (lookup o key) as [u|] eqn:E; [|exact IH].
  destruct u; try exact IH; intros E'; injection E' as <-; now exists key.
Qed.

Lemma weight_firstPresent (o : list (jsstring * value)) (keys : list jsstring) (w : value) :
  firstPresent (VObj o) keys = Some w -> weight w < weight (VObj o).
Proof.
  intros E. apply firstPresent_lookup in E as (key & E).
  apply weight_lookup in E. simpl. lia.
Qed.

(** ** Fuel *)

Lemma mapM_total {A B : Type} (f : A -> option B) (l : list A) :
  (forall a, In a l -> exists b, f a = Some b) -> exists bs, mapM f l = Some bs.
Proof.
  induction l as [|a r IH]; simpl; intros Hf; [now exists []|].
  destruct (Hf a (or_introl eq_refl)) as (b & ->).
  destruct IH as (bs & ->); [intros; apply Hf; now right|].
  now exists (b :: bs).
Qed.

Lemma mapM_ext {A B : Type} (f g : A -> option B) (l : list A) (bs : list B) :
  (forall a b, In a l -> f a = Some b -> g a = Some b) ->
  mapM f l = Some bs -> mapM g l = Some bs.
Proof.
  revert bs; induction l as [|a r IH]; simpl; intros bs Hfg; [trivial|].
  destruct (f a) as [b|] eqn:Ea; [|discriminate].
  destruct (mapM f r) as [bs'|] eqn:Er; [|discriminate].
  intros E. injection E as <-.
  rewrite (Hfg a b (or_introl eq_refl) Ea).
  rewrite (IH bs'); auto.
Qed.

Lemma mapM_map {A B : Type} (f : A -> option B) (g : A -> B) (l : list A) :
  (forall a, In a l -> f a = Some (g a)) -> mapM f l = Some (map g l).
Proof.
  induction l as [|a r IH]; simpl; intros Hf; [reflexivity|].
  rewrite (Hf a (or_introl eq_refl)), IH; auto.
Qed.

(** The weight of a value is enough fuel to sanitise it. *)
Lemma sanitize_enough (n : nat) : forall v,
  weight v <= n -> exists r, sanitize n v = Some r.
Proof.
  induction n as [|n IH]; intros v Hw.
  - destruct v; simpl in Hw; lia.
  - destruct v as [| | b|x|s|elems|props]; cbn [sanitize];
      try (eexists; reflexivity).
    + destruct (str_eqb (trim s) artifact || startsWith (trim s) (qlit "{'")
                || startsWith (trim s) (lit "{")); [|eexists; reflexivity].
      destruct (JSON_parse (trim s)) as [p|] eqn:Ep; [|eexists; reflexivity].
      apply IH. apply JSON_parse_weight in Ep.
      pose proof (trim_length s). simpl in Hw. lia.
    + destruct (mapM_total (sanitize n) elems) as (rs & ->).
      * intros v Hin. apply IH. apply weight_elem in Hin. simpl in Hw. lia.
      * eexists; reflexivity.
    + destruct (firstPresent (VObj props) priorityKeys) as [w|] eqn:Ew.
      * apply IH. apply weight_firstPresent in Ew. lia.
      * destruct (Object_keys props) as [|k [|k' ks]] eqn:Ek;
          try (eexists; reflexivity).
        apply IH. apply weight_single_key in Ek. lia.
Qed.

(** More fuel does not change a result. *)
Lemma sanitize_step (n : nat) : forall v r,
  sanitize n v = Some r -> sanitize (S n) v = Some r.
Proof.
  induction n as [|n IH]; intros v r E; [discriminate|].
  destruct v as [| | b|x|s|elems|props]; cbn [sanitize] in *; trivial.
  - destruct (str_eqb (trim s) artifact || startsWith (trim s) (qlit "{'")
              || startsWith (trim s) (lit "{")); [|exact E].
    destruct (JSON_parse (trim s)) as [p|]; [|exact E].
    now apply IH.
  - destruct (mapM (sanitize n) elems) as [rs|] eqn:Em; [|discriminate].
    erewrite mapM_ext; [exact E| |exact Em]. intros; now apply IH.
  - destruct (firstPresent (VObj props) priorityKeys) as [w|]; [now apply IH|].
    destruct (Object_keys props) as [|k [|k' ks]]; trivial. now apply IH.
Qed.

Lemma sanitize_le (n m : nat) (v : value) (r : jsstring) :
  n <= m -> sanitize n v = Some r -> sanitize m v = Some r.
Proof.
  induction 1 as [|m _ IH]; [trivial|]. intros E. apply sanitize_step. auto.
Qed.

Lemma sanitize_sanitizeString (n : nat) (v : value) (r : jsstring) :
  sanitize n v = Some r -> sanitizeString v = r.
Proof.
  intros E. unfold sanitizeString.
  destruct (sanitize_enough (n := weight v) v (le_n _)) as (r' & E').
  rewrite E'.
  apply sanitize_le with (m := Nat.max n (weight v)) in E; [|apply Nat.le_max_l].
  apply sanitize_le with (m := Nat.max n (weight v)) in E'; [|apply Nat.le_max_r].
  congruence.
Qed.

Lemma sanitizeString_fuel (n : nat) (v : value) :
  weight v <= n -> sanitize n v = Some (sanitizeString v).
Proof.
  intros Hw. destruct (sanitize_enough v Hw) as (r & E).
  rewrite E. f_equal. symmetry. now apply sanitize_sanitizeString with n.
Qed.

(** ** The recursion equation of the source

    [sanitizeString] satisfies, case by case, the equation its source text
    reads as; no fuel is left in it. *)
Theorem sanitizeString_eq (val : value) :
  sanitizeString val =
  match val with
  | VNull | VUndefined => []
  | VStr s =>
      let trimmed := trim s in
      if str_eqb trimmed artifact
         || startsWith trimmed (qlit "{'")
         || startsWith trimmed (lit "{")
      then
        match JSON_parse trimmed with
        | Some p => sanitizeString p
        | None => if str_eqb trimmed artifact then [] else trimmed
        end
      else if str_eqb s artifact then [] else s
  | VNum x => Number_toString x
  | VBool b => Boolean_toString b
  | VArr elems => join (lit ", ") (filter nonEmpty (map sanitizeString elems))
  | VObj props =>
      match firstPresent val priorityKeys with
      | Some w => sanitizeString w
      | None =>
          match Object_keys props with
          | [k] => sanitizeString (getProp val k)
          | _ => []
          end
      end
  end.
Proof.
  apply sanitize_sanitizeString with (n := S (weight val)).
  destruct val as [| | b|x|s|elems|props]; cbn [sanitize]; cbv zeta; trivial.
  - destruct (str_eqb (trim s) artifact || startsWith (trim s) (qlit "{'")
              || startsWith (trim s) (lit "{")); [|reflexivity].
    destruct (JSON_parse (trim s)) as [p|] eqn:Ep; [|reflexivity].
    apply sanitizeString_fuel. apply JSON_parse_weight in Ep.
    pose proof (trim_length s). simpl. lia.
  - rewrite mapM_map with (g := sanitizeString); [reflexivity|].
    intros v Hin. apply sanitizeString_fuel. apply weight_elem in Hin. simpl. lia.
  - destruct (firstPresent (VObj props) priorityKeys) as [w|] eqn:Ew.
    + apply sanitizeString_fuel. apply weight_firstPresent in Ew. lia.
    + destruct (Object_keys props) as [|k [|k' ks]] eqn:Ek; trivial.
      apply sanitizeString_fuel. apply weight_single_key in Ek. lia.
Qed.

(** The test on line 215 amounts to: the artifact, or an opening brace. *)
Lemma parse_attempted (t : jsstring) :
  str_eqb t artifact || startsWith t (qlit "{'") || startsWith t (lit "{")
  = str_eqb t artifact || startsWith t (lit "{").
Proof.
  destruct (str_eqb t artifact); [reflexivity|].
  destruct (startsWith t (qlit "{'")) eqn:E1;
    destruct (startsWith t (lit "{")) eqn:E2; try reflexivity.
  apply startsWith_app in E1 as (r & ->). discriminate E2.
Qed.

(** [JSON.parse] rejects the artifact, whatever the host's numbers are. *)
Lemma JSON_parse_artifact : JSON_parse artifact = None.
Proof. reflexivity. Qed.

(** ** Results that are never the artifact *)

Lemma mapM_in {A B : Type} (f : A -> option B) (l : list A) (bs : list B) (b : B) :
  mapM f l = Some bs -> In b bs -> exists a, In a l /\ f a = Some b.
Proof.
  revert bs; induction l as [|a r IH]; simpl; intros bs E Hin.
  - injection E as <-. contradiction.
  - destruct (f a) as [b'|] eqn:Ea; [|discriminate].
    destruct (mapM f r) as [bs'|]; [|discriminate].
    injection E as <-. destruct Hin as [->|Hin].
    + exists a. auto.
    + destruct (IH bs' eq_refl Hin) as (a' & Ha & Hf). exists a'. auto.
Qed.

Lemma join_comma (x y : jsstring) (r : list jsstring) :
  In 44%N (join (lit ", ") (x :: y :: r)).
Proof.
  change (In 44%N (x ++ 44%N :: 32%N :: join (lit ", ") (y :: r))).
  apply in_or_app. right. now left.
Qed.

Lemma join_not_artifact (l : list jsstring) :
  (forall x, In x l -> x <> artifact) -> join (lit ", ") l <> artifact.
Proof.
  destruct l as [|x [|y r]]; intros Hl.
  - discriminate.
  - apply Hl. now left.
  - intros E. pose proof (join_comma x y r) as Hin. rewrite E in Hin.
    vm_compute in Hin. intuition discriminate.
Qed.

Lemma sanitize_not_artifact (n : nat) : forall v r,
  sanitize n v = Some r -> r <> artifact.
Proof.
  induction n as [|n IH]; intros v r E; [discriminate|].
  destruct v as [| | b|x|s|elems|props]; cbn [sanitize] in E.
  - injection E as <-. discriminate.
  - injection E as <-. discriminate.
  - injection E as <-. destruct b; discriminate.
  - injection E as <-. intros Hx.
    pose proof (Number_toString_numeral x) as Hn. rewrite Hx in Hn. discriminate.
  - destruct (str_eqb (trim s) artifact || startsWith (trim s) (qlit "{'")
              || startsWith (trim s) (lit "{")).
    + destruct (JSON_parse (trim s)) as [p|]; [now apply IH with p|].
      injection E as <-.
      destruct (str_eqb (trim s) artifact) eqn:Et; [discriminate|].
      now apply str_eqb_neq.
    + injection E as <-.
      destruct (str_eqb s artifact) eqn:Es; [discriminate|].
      now apply str_eqb_neq.
  - destruct (mapM (sanitize n) elems) as [rs|] eqn:Em; [|discriminate].
    injection E as <-. apply join_not_artifact.
    intros x Hx. apply filter_In in Hx as [Hx _].
    destruct (mapM_in _ _ x Em Hx) as (v & _ & Ev). now apply IH with v.
  - destruct (firstPresent (VObj props) priorityKeys) as [w|]; [now apply IH with w|].
    destruct (Object_keys props) as [|k [|k' ks]].
    + injection E as <-. discriminate.
    + eapply IH. exact E.
    + injection E as <-. discriminate.
Qed.

(** C1.  Whatever value it is given, [sanitizeString] never returns the
    text [[object Object]]: not for that string itself, not for a string
    that trims to it, not for an array or an object holding it. *)
Theorem sanitizeString_never_artifact (val : value) :
  sanitizeString val <> artifact.
Proof.
  apply sanitize_not_artifact with (n := weight val) (v := val).
  now apply sanitizeString_fuel.
Qed.

(** The recursion is well founded: on every value, however deeply nested
    and however many strings of it hold JSON text in turn, the weight of
    the value is enough fuel for [sanitize] to return a string, which is
    the string [sanitizeString] returns, and more fuel returns the same.
    This is the function the source text defines; whether the host can run
    it to the end is a matter of its call stack ([sanitizeStringOn]). *)
Lemma sanitizeString_total (val : value) :
  exists r : jsstring,
    sanitizeString val = r /\
    forall fuel, weight val <= fuel -> sanitize fuel val = Some r.
Proof.
  exists (sanitizeString val). split; [reflexivity|].
  intros fuel Hw. now apply sanitizeString_fuel.
Qed.

(** The result does not even trim to the artifact. *)
Lemma trim_artifact_chars (r : jsstring) (c : char16) :
  trim r = artifact -> In c r -> isWhiteSpace c = true \/ In c artifact.
Proof.
  intros Ht Hc. destruct (trim_decompose r) as (ws & ws' & Hr & Hws & Hws').
  rewrite Hr, Ht in Hc. apply in_app_or in Hc as [Hc|Hc]; [left; auto|].
  apply in_app_or in Hc as [Hc|Hc]; [now right | left; auto].
Qed.

Lemma numeral_not_trim_artifact (r : jsstring) :
  numeralHead r = true -> trim r <> artifact.
Proof.
  destruct r as [|c r']; [discriminate|]. intros Hn Ht.
  destruct (trim_artifact_chars (c :: r') c Ht (or_introl eq_refl)) as [Hw|Hin].
  - apply numeral_not_space in Hn. congruence.
  - vm_compute in Hin.
    repeat (destruct Hin as [<-|Hin]; [discriminate Hn|]). contradiction.
Qed.

Lemma join_not_trim_artifact (l : list jsstring) :
  (forall x, In x l -> trim x <> artifact) -> trim (join (lit ", ") l) <> artifact.
Proof.
  destruct l as [|x [|y r]]; intros Hl.
  - discriminate.
  - apply Hl. now left.
  - intros E.
    destruct (trim_artifact_chars _ 44%N E (join_comma x y r)) as [Hw|Hin].
    + discriminate Hw.
    + vm_compute in Hin. intuition discriminate.
Qed.

Lemma sanitize_not_trim_artifact (n : nat) : forall v r,
  sanitize n v = Some r -> trim r <> artifact.
Proof.
  induction n as [|n IH]; intros v r E; [discriminate|].
  destruct v as [| | b|x|s|elems|props]; cbn [sanitize] in E.
  - injection E as <-. discriminate.
  - injection E as <-. discriminate.
  - injection E as <-. destruct b; discriminate.
  - injection E as <-. apply numeral_not_trim_artifact, Number_toString_numeral.
  - rewrite parse_attempted in E.
    destruct (str_eqb (trim s) artifact) eqn:Et; cbn [orb] in E.
    + destruct (JSON_parse (trim s)) as [p|]; [now apply IH with p|].
      injection E as <-. discriminate.
    + apply str_eqb_neq in Et.
      destruct (startsWith (trim s) (lit "{")).
      * destruct (JSON_parse (trim s)) as [p|]; [now apply IH with p|].
        injection E as <-. now rewrite trim_idempotent.
      * injection E as <-. destruct (str_eqb s artifact); [discriminate|exact Et].
  - destruct (mapM (sanitize n) elems) as [rs|] eqn:Em; [|discriminate].
    injection E as <-. apply join_not_trim_artifact.
    intros x Hx. apply filter_In in Hx as [Hx _].
    destruct (mapM_in _ _ x Em Hx) as (v & _ & Ev). now apply IH with v.
  - destruct (firstPresent (VObj props) priorityKeys) as [w|]; [now apply IH with w|].
    destruct (Object_keys props) as [|k [|k' ks]].
    + injection E as <-. discriminate.
    + eapply IH. exact E.
    + injection E as <-. discriminate.
Qed.

Lemma sanitizeString_not_trim_artifact (val : value) :
  trim (sanitizeString val) <> artifact.
Proof.
  apply sanitize_not_trim_artifact with (n := weight val) (v := val).
  now apply sanitizeString_fuel.
Qed.

(** ** Strings *)

(** A string that is not decoded: either it comes back as it is, or,
    when it begins with a brace after trimming, it comes back trimmed. *)
Lemma sanitizeString_plain (s : jsstring) :
  startsWith (trim s) (lit "{") = false -> trim s <> artifact ->
  sanitizeString (VStr s) = s.
Proof.
  intros Hb Ha. rewrite sanitizeString_eq. cbv zeta. rewrite parse_attempted.
  apply str_eqb_neq in Ha. rewrite Ha, Hb. simpl.
  destruct (str_eqb s artifact) eqn:Es; [|reflexivity].
  apply str_eqb_eq in Es. subst s. discriminate Ha.
Qed.

Lemma sanitizeString_unparsed (s : jsstring) :
  startsWith (trim s) (lit "{") = true -> JSON_parse (trim s) = None ->
  sanitizeString (VStr s) = trim s.
Proof.
  intros Hb Hp. rewrite sanitizeString_eq. cbv zeta. rewrite parse_attempted.
  rewrite Hb, Hp, orb_true_r.
  destruct (str_eqb (trim s) artifact) eqn:Es; [|reflexivity].
  apply str_eqb_eq in Es. rewrite Es in Hb. discriminate Hb.
Qed.

(** C5, amended.  A string whose trimmed form neither starts with an
    opening brace nor is the artifact is returned as it is, white space
    included; the trimmed form is what is returned when it starts with an
    opening brace and is not valid JSON. *)
Theorem sanitizeString_string_result (s : jsstring) :
  (startsWith (trim s) (lit "{") = false -> trim s <> artifact ->
   sanitizeString (VStr s) = s)
  /\
  (startsWith (trim s) (lit "{") = true -> JSON_parse (trim s) = None ->
   sanitizeString (VStr s) = trim s).
Proof.
  split; [apply sanitizeString_plain | apply sanitizeString_unparsed].
Qed.

(** A result that is not decoded again is a fixed point. *)
Lemma sanitizeString_fixed (val : value) :
  let r := sanitizeString val in
  startsWith (trim r) (lit "{") = false
  \/ (JSON_parse (trim r) = None /\ trim r = r) ->
  sanitizeString (VStr r) = r.
Proof.
  intros r Hr. pose proof (sanitizeString_not_trim_artifact val) as Ha.
  fold r in Ha.
  destruct (startsWith (trim r) (lit "{")) eqn:Hb.
  - destruct Hr as [Hr|[Hp Ht]]; [discriminate|].
    rewrite <- Ht at 2. now apply sanitizeString_unparsed.
  - now apply sanitizeString_plain.
Qed.

(** A string that is not itself decoded is read twice as it is read
    once. *)
Corollary undecoded_string_fixed (s : jsstring) :
  startsWith (trim s) (lit "{") = false \/ JSON_parse (trim s) = None ->
  sanitizeString (VStr (sanitizeString (VStr s))) = sanitizeString (VStr s).
Proof.
  intros Hs. apply (sanitizeString_fixed (VStr s)). cbv zeta.
  destruct (startsWith (trim s) (lit "{")) eqn:Hb.
  - destruct Hs as [Hs|Hp]; [discriminate|].
    rewrite (sanitizeString_unparsed _ Hb Hp), trim_idempotent. auto.
  - destruct (str_eqb (trim s) artifact) eqn:Ea.
    + rewrite sanitizeString_eq. cbv zeta. rewrite Ea. simpl.
      apply str_eqb_eq in Ea. rewrite Ea, JSON_parse_artifact. now left.
    + apply str_eqb_neq in Ea. rewrite (sanitizeString_plain _ Hb Ea). now left.
Qed.

End Sanitizer.

(* ===================================================================== *)
(** * Properties of analyzePrescription *)
(* ===================================================================== *)

Section Analyze.

Context {H : Host}.

(** ** JSON extraction *)

Lemma removeAll_from_skip (p q t : jsstring) :
  removeAll_from p (length q) (q ++ t) = removeAll_from p 0 t.
Proof.
  induction q as [|c q IH]; simpl; [|exact IH].
  destruct t; reflexivity.
Qed.

Lemma removeAll_prefix (p t : jsstring) :
  p <> [] -> removeAll p (p ++ t) = removeAll p t.
Proof.
  destruct p as [|a p']; [contradiction|]. intros _.
  unfold removeAll. change ((a :: p') ++ t) with (a :: (p' ++ t)).
  cbn [removeAll_from].
  assert (Hs : startsWith (a :: p' ++ t) (a :: p') = true).
  { apply startsWith_app. now exists t. }
  rewrite Hs. simpl Nat.pred. apply removeAll_from_skip.
Qed.

Lemma removeAll_free (a : char16) (p' s t : jsstring) :
  ~ In a s -> removeAll (a :: p') (s ++ t) = s ++ removeAll (a :: p') t.
Proof.
  unfold removeAll. induction s as [|c s IH]; intros Hs; [reflexivity|].
  change ((c :: s) ++ t) with (c :: (s ++ t)). cbn [removeAll_from startsWith].
  assert (Hc : (a =? c)%N = false).
  { apply N.eqb_neq. intros ->. apply Hs. now left. }
  rewrite Hc. simpl. f_equal. apply IH. intros Hin. apply Hs. now right.
Qed.

(** Text between a [```json] fence and a [```] fence, itself free of
    backticks, is cleaned to its trimmed self. *)
Lemma cleanText_fenced (body : jsstring) :
  ~ In 96%N body ->
  cleanText (lit "```json" ++ body ++ lit "```") = trim body.
Proof.
  intros Hb. unfold cleanText.
  rewrite removeAll_prefix by discriminate.
  change (lit "```json") with (96%N :: lit "``json").
  rewrite removeAll_free by exact Hb.
  change (removeAll (96%N :: lit "``json") (lit "```")) with (lit "```").
  change (lit "```") with (96%N :: lit "``") at 1.
  rewrite removeAll_free by exact Hb.
  change (removeAll (96%N :: lit "``") (lit "```")) with (@nil char16).
  now rewrite app_nil_r.
Qed.

Lemma dropUntil_app (c : char16) (pre s : jsstring) :
  ~ In c pre -> dropUntil c (pre ++ c :: s) = Some (c :: s).
Proof.
  induction pre as [|x pre IH]; simpl; intros Hp.
  - now rewrite N.eqb_refl.
  - destruct (N.eqb_spec x c) as [->|_]; [exfalso; apply Hp; now left|].
    apply IH. intros Hin. apply Hp. now right.
Qed.

Lemma dropUntil_inv (c : char16) (s t : jsstring) :
  dropUntil c s = Some t ->
  exists pre r, s = pre ++ t /\ t = c :: r /\ ~ In c pre.
Proof.
  induction s as [|x s IH]; simpl; [discriminate|].
  destruct (N.eqb_spec x c) as [->|Hx].
  - intros E. injection E as <-. exists [], s. auto.
  - intros E. destruct (IH E) as (pre & r & -> & -> & Hp).
    exists (x :: pre), r. repeat split. intros [Hc|Hc]; auto.
Qed.

(** [matchBraces] finds the span from the first opening brace to the last
    closing brace, and nothing else. *)
Lemma matchBraces_span (pre mid post : jsstring) :
  ~ In 123%N pre -> ~ In 125%N post ->
  matchBraces (pre ++ 123%N :: mid ++ 125%N :: post) = Some (123%N :: mid ++ [125%N]).
Proof.
  intros Hpre Hpost. unfold matchBraces.
  rewrite dropUntil_app by exact Hpre. cbv beta iota.
  simpl rev. rewrite rev_app_distr. simpl rev. rewrite <- !app_assoc. simpl app.
  rewrite dropUntil_app; [|now rewrite <- in_rev].
  f_equal. simpl. rewrite rev_app_distr, rev_involutive. reflexivity.
Qed.

Lemma matchBraces_inv (text span : jsstring) :
  matchBraces text = Some span ->
  exists pre mid post,
    text = pre ++ span ++ post /\ ~ In 123%N pre /\ ~ In 125%N post /\
    startsWith span (lit "{") = true /\ span = mid ++ [125%N].
Proof.
  unfold matchBraces.
  destruct (dropUntil 123%N text) as [fromOpen|] eqn:E1; [|discriminate].
  destruct (dropUntil 125%N (rev fromOpen)) as [revSpan|] eqn:E2; [|discriminate].
  intros E. injection E as <-.
  apply dropUntil_inv in E1 as (pre & r & -> & -> & Hpre).
  apply dropUntil_inv in E2 as (post' & m & Hrev & -> & Hpost).
  apply (f_equal (@rev char16)) in Hrev.
  rewrite rev_involutive, rev_app_distr in Hrev.
  exists pre, (rev m), (rev post').
  split; [now rewrite Hrev|].
  split; [exact Hpre|].
  split; [now rewrite <- in_rev|].
  split; [|reflexivity].
  simpl rev in *. destruct (rev m) as [|x l].
  - simpl in Hrev. injection Hrev as Hc _. discriminate Hc.
  - simpl in Hrev. injection Hrev as <- _. reflexivity.
Qed.

(** C7.  The extraction step returns the parsed value of a text wrapped
    in code fences and of a JSON object embedded in noise, through the
    span from the first opening brace to the last closing brace; it fails
    exactly when neither the cleaned text nor that span parses, in
    particular when there is no such span. *)
Theorem extractJson_spec :
  (forall body v,
     ~ In 96%N body -> JSON_parse (trim body) = Some v ->
     extractJson (lit "```json" ++ body ++ lit "```") = Return v)
  /\
  (forall pre mid post v,
     ~ In 123%N pre -> ~ In 125%N post ->
     JSON_parse (123%N :: mid ++ [125%N]) = Some v ->
     exists w,
       extractJson (pre ++ 123%N :: mid ++ 125%N :: post) = Return w /\
       (JSON_parse (cleanText (pre ++ 123%N :: mid ++ 125%N :: post)) = None -> w = v))
  /\
  (forall text,
     (exists e, extractJson text = Throw e) <->
     JSON_parse (cleanText text) = None /\
     forall span, matchBraces text = Some span -> JSON_parse span = None).
Proof.
  split; [|split].
  - intros body v Hb Hv. unfold extractJson.
    now rewrite cleanText_fenced, Hv.
  - intros pre mid post v Hpre Hpost Hv. unfold extractJson.
    destruct (JSON_parse (cleanText _)) as [w|]; [exists w; split; [reflexivity|discriminate]|].
    rewrite matchBraces_span by assumption. cbv beta iota. rewrite Hv. now exists v.
  - intros text. unfold extractJson. split.
    + intros (e & E). destruct (JSON_parse (cleanText text)); [discriminate|].
      split; [reflexivity|]. intros span Hspan. rewrite Hspan in E.
      destruct (JSON_parse span); [discriminate|reflexivity].
    + intros (Hc & Hs). rewrite Hc.
      destruct (matchBraces text) as [span|]; [|eexists; reflexivity].
      rewrite (Hs span eq_refl). eexists; reflexivity.
Qed.

(** ** Normalisation *)

Lemma bind_return {A B : Type} (m : outcome A) (k : A -> outcome B) (b : B) :
  bind m k = Return b -> exists a, m = Return a /\ k a = Return b.
Proof.
  destruct m as [a|e]; simpl; [|discriminate]. intros E. now exists a.
Qed.

Lemma mapT_return {A B : Type} (f : A -> outcome B) (l : list A) (bs : list B) :
  mapT f l = Return bs -> Forall2 (fun a b => f a = Return b) l bs.
Proof.
  revert bs; induction l as [|a r IH]; simpl; intros bs E.
  - injection E as <-. constructor.
  - apply bind_return in E as (b & Ea & E).
    apply bind_return in E as (bs' & Er & E).
    injection E as <-. constructor; auto.
Qed.

(** The only way for the medication pass to raise is an entry that is
    [null] or [undefined]. *)
Lemma mapT_sanitizeMedication (entries : list value) :
  (exists ms, mapT sanitizeMedication entries = Return ms) <->
  (forall e, In e entries -> e <> VNull /\ e <> VUndefined).
Proof.
  induction entries as [|e r IH]; simpl.
  - split; [intros _ e []|intros _; now exists []].
  - split.
    + intros (ms & E). apply bind_return in E as (m & Em & E).
      apply bind_return in E as (ms' & Er & _).
      intros e' [<-|Hin].
      * destruct e; try discriminate; split; discriminate.
      * apply IH; [now exists ms'|exact Hin].
    + intros He. destruct IH as [_ IH]. destruct IH as (ms & ->); [auto|].
      destruct (He e (or_introl eq_refl)) as [H1 H2].
      destruct e; try contradiction; eexists; reflexivity.
Qed.

Lemma keepMedication_true (m : Medication) :
  keepMedication m = true <->
  let brand := toLowerCase (prescribed_brand m) in
  brand <> [] /\ 1 < length brand
  /\ includes brand (lit "not provided") = false
  /\ includes brand (lit "illegible") = false.
Proof.
  unfold keepMedication. cbv zeta.
  rewrite !andb_true_iff, !negb_true_iff, nonEmpty_true, Nat.ltb_lt.
  tauto.
Qed.

Lemma sanitizeMedication_brand (e : value) (m : Medication) :
  sanitizeMedication e = Return m ->
  prescribed_brand m = sanitizeString (getProp e (lit "prescribed_brand")).
Proof.
  destruct e; simpl; try discriminate; intros E; injection E as <-; reflexivity.
Qed.

Lemma keepMedication_ascii (m : Medication) :
  forallb isAscii (prescribed_brand m) = true ->
  keepMedication m =
  let brand := map lowerAscii (prescribed_brand m) in
  nonEmpty brand && (1 <? length brand)
  && negb (includes brand (lit "not provided"))
  && negb (includes brand (lit "illegible")).
Proof.
  intros Ha. unfold keepMedication. now rewrite (toLowerCase_ascii _ Ha).
Qed.

(** C6, amended.  When the medication pass returns, which it does unless
    an entry is [null] or [undefined], the normalised list is the list of
    the sanitised entries, in order, filtered: an entry is kept if and only
    if its lower-cased sanitised [prescribed_brand] is non-empty, longer
    than one code unit, and contains neither [not provided] nor
    [illegible].  Entries that fail are removed, none is defaulted.  An
    entry whose brand is [Not provided in image] is dropped, one whose
    brand is [Crocin] is kept. *)
Theorem normalizeMedications_spec :
  (forall (entries : list value) (l : list Medication),
     normalizeMedications (VArr entries) = Return l ->
     exists ms,
       Forall2 (fun e m => sanitizeMedication e = Return m) entries ms
       /\ l = filter keepMedication ms
       /\ forall m, In m ms ->
            (In m l <->
             let brand := toLowerCase (prescribed_brand m) in
             brand <> [] /\ 1 < length brand
             /\ includes brand (lit "not provided") = false
             /\ includes brand (lit "illegible") = false))
  /\
  (forall (e : value) (m : Medication),
     sanitizeMedication e = Return m ->
     (getProp e (lit "prescribed_brand") = VStr (lit "Not provided in image") ->
      keepMedication m = false)
     /\
     (getProp e (lit "prescribed_brand") = VStr (lit "Crocin") ->
      keepMedication m = true)).
Proof.
  split.
  - intros entries l E. unfold normalizeMedications in E.
    apply bind_return in E as (ms & Ems & E). injection E as <-.
    exists ms. split; [now apply mapT_return|]. split; [reflexivity|].
    intros m Hm. rewrite filter_In, <- keepMedication_true. tauto.
  - intros e m Em. apply sanitizeMedication_brand in Em.
    split; intros Hb; rewrite Hb in Em.
    + change (sanitizeString (VStr (lit "Not provided in image")))
        with (lit "Not provided in image") in Em.
      rewrite keepMedication_ascii; rewrite Em; reflexivity.
    + change (sanitizeString (VStr (lit "Crocin"))) with (lit "Crocin") in Em.
      rewrite keepMedication_ascii; rewrite Em; reflexivity.
Qed.

(** The medication list of [normalize] is the one of the medication pass. *)
Lemma normalize_medications (parsed : value) (r : AnalysisResult) :
  normalize parsed = Return r ->
  normalizeMedications
    (getProp (if truthy parsed then parsed else VObj []) (lit "medications"))
  = Return (medications r).
Proof.
  unfold normalize. destruct (assignable _); [|discriminate].
  intros E. apply bind_return in E as (meds & Em & E).
  apply bind_return in E as (md & _ & E). injection E as <-. exact Em.
Qed.

(** Line 321 applies the default before the sanitiser: when the source
    [en] is absent, or otherwise falsy, the normalised [en] is the literal
    [Analysis complete.]; when it is present and truthy, the normalised
    [en] is what [sanitizeString] makes of it, the empty string included. *)
Lemma normalize_en (parsed : value) (r : AnalysisResult) :
  normalize parsed = Return r ->
  (truthy (sourceEn parsed) = false ->
   en (bhashini_summary r) = lit "Analysis complete."
   /\ en (bhashini_summary r) <> [])
  /\
  (truthy (sourceEn parsed) = true ->
   en (bhashini_summary r) = sanitizeString (sourceEn parsed)).
Proof.
  unfold normalize. destruct (assignable _); [|discriminate].
  intros E. apply bind_return in E as (meds & _ & E).
  apply bind_return in E as (md & _ & E). injection E as <-.
  unfold sourceEn. cbn [bhashini_summary en normalizeSummary]. unfold orElse.
  split; intros ->; [split; [reflexivity|discriminate]|reflexivity].
Qed.

End Analyze.

(* ===================================================================== *)
(** * Properties of findNearestStore *)
(* ===================================================================== *)

Section Store.

Context {H : Host}.

(** The constructed URL embeds the two coordinates, printed by the host,
    and survives the final sanitisation unchanged. *)
Lemma searchUrl_embeds (lat lng : number) :
  exists before between after,
    searchUrl lat lng
    = before ++ Number_toString lat ++ between ++ Number_toString lng ++ after
    /\ before <> [].
Proof.
  eexists _, _, _. split; [reflexivity|discriminate].
Qed.

Lemma sanitizeString_searchUrl (lat lng : number) :
  sanitizeString (VStr (searchUrl lat lng)) = searchUrl lat lng
  /\ searchUrl lat lng <> [].
Proof.
  split; [|discriminate].
  destruct (trim_head 104%N
              (lit "ttps://www.google.com/maps/search/Pradhan+Mantri+Bhartiya+Janaushadhi+Kendra/@"
               ++ Number_toString lat ++ lit "," ++ Number_toString lng ++ lit ",15z")
              eq_refl) as (t & Ht).
  apply sanitizeString_plain;
    change (searchUrl lat lng) with
      (104%N :: lit "ttps://www.google.com/maps/search/Pradhan+Mantri+Bhartiya+Janaushadhi+Kendra/@"
            ++ Number_toString lat ++ lit "," ++ Number_toString lng ++ lit ",15z");
    rewrite Ht; [reflexivity|discriminate].
Qed.

(** What [extractStore] returns for a first candidate: the name is never
    empty; the map URI is the constructed URL when the scan found none,
    and the scanned URI sanitised once more otherwise. *)
Lemma extractStore_result (lat lng : number) (response : GenerateContentResponse)
    (loc : StoreLocation) :
  extractStore lat lng response = Return (Some loc) ->
  exists first rest st,
    candidates response = Some (first :: rest)
    /\ scanChunks scanStart (chunksOf first) = Return st
    /\ name loc <> []
    /\ (scan_mapUri st = [] -> mapUri loc = searchUrl lat lng)
    /\ (scan_mapUri st <> [] -> mapUri loc = sanitizeString (VStr (scan_mapUri st))).
Proof.
  unfold extractStore.
  destruct (candidates response) as [[|first rest]|]; try discriminate.
  intros E. apply bind_return in E as (st & Est & E).
  injection E as <-. exists first, rest, st. cbn [name mapUri].
  split; [reflexivity|]. split; [exact Est|]. split; [|split].
  - destruct (nonEmpty (sanitizeString (VStr (scan_name st)))) eqn:En.
    + now apply nonEmpty_true.
    + discriminate.
  - intros ->. apply sanitizeString_searchUrl.
  - intros Hu. apply nonEmpty_true in Hu. now rewrite Hu.
Qed.

(** C9.  With no candidates, be the list absent or empty, the function
    returns [null]; it does not raise. *)
Theorem findNearestStore_no_candidates (lat lng : number) (responseText : option jsstring) :
  findNearestStore lat lng (Return {| candidates := None; text := responseText |})
  = Return None
  /\
  findNearestStore lat lng (Return {| candidates := Some []; text := responseText |})
  = Return None.
Proof.
  split; reflexivity.
Qed.

(** An exception inside the body, such as the TypeError of reading
    [maps] on a [null] chunk, is turned into [null] as well. *)
Lemma findNearestStore_catches (lat lng : number) (response : GenerateContentResponse) (e : exn) :
  extractStore lat lng response = Throw e ->
  findNearestStore lat lng (Return response) = Return None.
Proof.
  unfold findNearestStore. simpl. now intros ->.
Qed.

(** C10.  Whatever the provider call does, return or throw, and whatever
    the body then does, [findNearestStore] returns: a store or [null].  A
    failed call gives [null], the very result of a response without
    candidates. *)
Theorem findNearestStore_never_throws (lat lng : number) (ai : outcome GenerateContentResponse) :
  (exists r, findNearestStore lat lng ai = Return r)
  /\
  (forall e responseText,
     findNearestStore lat lng (Throw e) = Return None
     /\ findNearestStore lat lng (Throw e)
        = findNearestStore lat lng (Return {| candidates := Some []; text := responseText |})).
Proof.
  split.
  - unfold findNearestStore.
    destruct (bind ai (extractStore lat lng)) as [r|e]; eexists; reflexivity.
  - intros e responseText. split; reflexivity.
Qed.

End Store.

(* ===================================================================== *)
(** * Further properties of sanitizeString *)
(* ===================================================================== *)

Section SanitizerShapes.

Context {H : Host}.

Lemma sanitizeString_not_artifact (val : value) : sanitizeString val <> artifact.
Proof.
  apply sanitize_not_artifact with (n := weight val) (v := val).
  now apply sanitizeString_fuel.
Qed.

(** A string that begins with a character that is neither white space, nor
    an opening brace, nor an opening bracket, is returned as it is. *)
Lemma sanitizeString_plain_head (c : char16) (r : jsstring) :
  isWhiteSpace c = false -> c <> 123%N -> c <> 91%N ->
  sanitizeString (VStr (c :: r)) = c :: r.
Proof.
  intros Hw Hb Ha. destruct (trim_head c r Hw) as (t & Ht).
  apply sanitizeString_plain; rewrite Ht.
  - destruct (startsWith (c :: t) (lit "{")) eqn:E; [|reflexivity].
    apply startsWith_app in E as (r' & E). injection E as E _. contradiction.
  - intros E. injection E as E _. contradiction.
Qed.

(** ** Wrappers *)



(** ** Arrays *)








(** ** Objects *)




End SanitizerShapes.

(* ===================================================================== *)
(** * Further properties of analyzePrescription *)
(* ===================================================================== *)

Section AnalyzeResult.

Context {H : Host}.

Lemma bind_throw {A B : Type} (m : outcome A) (k : A -> outcome B) (e : exn) :
  bind m k = Throw e -> m = Throw e \/ exists a, m = Return a /\ k a = Throw e.
Proof.
  destruct m as [a|e']; simpl; intros E.
  - right. now exists a.
  - left. now injection E as ->.
Qed.

Lemma mapT_sanitizeMedication_throw (entries : list value) (e : exn) :
  mapT sanitizeMedication entries = Throw e -> e = TypeError.
Proof.
  induction entries as [|x r IH]; simpl; [discriminate|].
  intros E. apply bind_throw in E as [E|(m & _ & E)].
  - destruct x; simpl in E; congruence.
  - apply bind_throw in E as [E|(ms & _ & E)]; [auto|discriminate].
Qed.

Lemma normalizeMedications_throw (meds : value) (e : exn) :
  normalizeMedications meds = Throw e -> e = TypeError.
Proof.
  destruct meds; simpl; try discriminate.
  intros E. apply bind_throw in E as [E|(ms & _ & E)]; [|discriminate].
  now apply mapT_sanitizeMedication_throw in E.
Qed.

Lemma normalizeMedications_returns (meds : value) :
  (exists l, normalizeMedications meds = Return l) <->
  (forall entries e, meds = VArr entries -> In e entries ->
     e <> VNull /\ e <> VUndefined).
Proof.
  destruct meds as [| | b|x|s|entries|props];
    try (split; [intros _ entries e; discriminate | intros _; eexists; reflexivity]).
  unfold normalizeMedications. split.
  - intros (l & E) entries' e [= <-] Hin.
    apply bind_return in E as (ms & E & _).
    apply (proj1 (mapT_sanitizeMedication entries)); [now exists ms|exact Hin].
  - intros Hall.
    destruct (proj2 (mapT_sanitizeMedication entries)) as (ms & ->).
    + intros e Hin. now apply (Hall entries).
    + eexists; reflexivity.
Qed.

Lemma normalizeMetadata_returns (md : value) :
  (exists m, normalizeMetadata md = Return m) <->
  (truthy md = true -> assignable md = true).
Proof.
  unfold normalizeMetadata. destruct (truthy md) eqn:Et.
  - destruct (assignable md); split; trivial.
    + intros _. eexists; reflexivity.
    + intros (m & E). discriminate.
    + intros Ha. now discriminate Ha.
  - split; [discriminate|]. intros _. eexists; reflexivity.
Qed.

Lemma normalizeMetadata_throw (md : value) (e : exn) :
  normalizeMetadata md = Throw e -> e = TypeError.
Proof.
  unfold normalizeMetadata.
  destruct (assignable (if truthy md then md else VObj [])); [discriminate|].
  now intros [= <-].
Qed.

Lemma normalize_throw (parsed : value) (e : exn) :
  normalize parsed = Throw e -> e = TypeError.
Proof.
  unfold normalize.
  destruct (assignable (if truthy parsed then parsed else VObj []));
    [|now intros [= <-]].
  intros E. apply bind_throw in E as [E|(meds & _ & E)].
  - now apply normalizeMedications_throw in E.
  - apply bind_throw in E as [E|(md & _ & E)]; [|discriminate].
    now apply normalizeMetadata_throw in E.
Qed.

(** When the normaliser returns, the stack of the host set aside.  It
    raises, and then a TypeError, in three cases only: the parsed value is
    a truthy primitive (a number, a string, [true]); its [medications]
    array holds [null] or [undefined]; its [metadata] is a truthy
    primitive. *)
Lemma normalize_outcome (parsed0 : value) :
  let parsed := if truthy parsed0 then parsed0 else VObj [] in
  ((exists r, normalize parsed0 = Return r) <->
   assignable parsed = true
   /\ (forall entries e,
         getProp parsed (lit "medications") = VArr entries -> In e entries ->
         e <> VNull /\ e <> VUndefined)
   /\ (truthy (getProp parsed (lit "metadata")) = true ->
       assignable (getProp parsed (lit "metadata")) = true))
  /\ (forall e, normalize parsed0 = Throw e -> e = TypeError).
Proof.
  cbv zeta. split; [|intros e E; now apply normalize_throw in E].
  unfold normalize.
  set (parsed := if truthy parsed0 then parsed0 else VObj []).
  destruct (assignable parsed) eqn:Ea.
  - rewrite <- normalizeMedications_returns, <- normalizeMetadata_returns. split.
    + intros (r & E). apply bind_return in E as (meds & Em & E).
      apply bind_return in E as (md & Ed & _).
      split; [reflexivity|]. split; [now exists meds | now exists md].
    + intros (_ & (meds & ->) & (md & ->)). eexists; reflexivity.
  - split; [intros (r & E); discriminate | intros (E & _); discriminate].
Qed.

(** ** The strings of a result *)

Lemma sanitizeMedication_fields (e : value) (m : Medication) (s : jsstring) :
  sanitizeMedication e = Return m -> In s (medicationFields m) ->
  exists v, s = sanitizeString v.
Proof.
  destruct e; simpl; try discriminate; intros E; injection E as <-;
    unfold medicationFields; cbn [prescribed_brand active_salt jan_aushadhi_generic
      brand_price_est jan_aushadhi_price_est savings_est];
    intros Hs; repeat (destruct Hs as [<-|Hs]; [eexists; reflexivity|]);
    contradiction.
Qed.

Lemma Forall2_In_r {A B : Type} (P : A -> B -> Prop) (l : list A) (l' : list B) (b : B) :
  Forall2 P l l' -> In b l' -> exists a, In a l /\ P a b.
Proof.
  induction 1 as [|a b' l l' Hab _ IH]; simpl; [contradiction|].
  intros [<-|Hin]; [exists a; auto|].
  destruct (IH Hin) as (a' & Ha & HP). exists a'. auto.
Qed.

Lemma normalizeMedications_entries (meds : value) (l : list Medication) (m : Medication) :
  normalizeMedications meds = Return l -> In m l ->
  keepMedication m = true
  /\ exists entries e,
       meds = VArr entries /\ In e entries /\ sanitizeMedication e = Return m.
Proof.
  destruct meds as [| | b|x|s|entries|props]; simpl;
    try (intros [= <-] []).
  intros E Hm. apply bind_return in E as (ms & Ems & E). injection E as <-.
  apply filter_In in Hm as [Hm Hk]. split; [exact Hk|].
  apply mapT_return in Ems.
  destruct (@Forall2_In_r _ _ _ _ _ m Ems Hm) as (e & He & Hem).
  exists entries, e. auto.
Qed.

Lemma normalize_fields (parsed : value) (r : AnalysisResult) (s : jsstring) :
  normalize parsed = Return r -> In s (resultFields r) ->
  exists v, s = sanitizeString v.
Proof.
  unfold normalize. destruct (assignable _); [|discriminate].
  intros E. apply bind_return in E as (meds & Em & E).
  apply bind_return in E as (md & Ed & E). injection E as <-.
  unfold normalizeMetadata in Ed.
  destruct (assignable (if truthy _ then _ else _)); [|discriminate].
  injection Ed as <-.
  unfold resultFields.
  cbn [metadata medications bhashini_summary disclaimer doctor date currency
       normalizeSummary en hi te ta kn bn mr].
  intros Hs. apply in_app_or in Hs as [Hs|Hs].
  - repeat (destruct Hs as [<-|Hs]; [eexists; reflexivity|]). contradiction.
  - apply in_flat_map in Hs as (m & Hm & Hs).
    destruct (normalizeMedications_entries _ _ Em Hm) as (_ & entries & e & _ & _ & He).
    now apply sanitizeMedication_fields with e m.
Qed.

Lemma analyzePrescription_return (ai : outcome (option jsstring)) (r : AnalysisResult) :
  analyzePrescription ai = Return r ->
  exists t parsed,
    ai = Return (Some t) /\ t <> []
    /\ extractJson t = Return parsed /\ normalize parsed = Return r.
Proof.
  unfold analyzePrescription. intros E.
  apply bind_return in E as (t & -> & E).
  destruct t as [t|]; [|discriminate].
  destruct (nonEmpty t) eqn:Et; [|discriminate].
  apply bind_return in E as (parsed & Ep & En).
  exists t, parsed. repeat split; trivial. now apply nonEmpty_true.
Qed.

(** X6.  No string of a result that [analyzePrescription] returns, in the
    metadata, the summaries, the disclaimer or any medication, is the text
    [[object Object]], nor that text with white space around it. *)
Theorem analyzePrescription_no_artifact (ai : outcome (option jsstring)) (r : AnalysisResult) :
  analyzePrescription ai = Return r ->
  forall s, In s (resultFields r) -> s <> artifact /\ trim s <> artifact.
Proof.
  intros E s Hs. apply analyzePrescription_return in E as (t & parsed & _ & _ & _ & E).
  destruct (normalize_fields _ E Hs) as (v & ->).
  split; [apply sanitizeString_not_artifact|apply sanitizeString_not_trim_artifact].
Qed.

(** X7.  Every medication of a result has a brand: it is never empty, and when
    it is made of ASCII characters it is longer than one character and
    holds neither marker, in any letter case.  The list is no longer than
    the array it comes from. *)
Theorem normalize_medications_kept (parsed : value) (r : AnalysisResult) :
  normalize parsed = Return r ->
  (forall m, In m (medications r) ->
     prescribed_brand m <> []
     /\ (forallb isAscii (prescribed_brand m) = true ->
         1 < length (prescribed_brand m)
         /\ includes (map lowerAscii (prescribed_brand m)) (lit "not provided") = false
         /\ includes (map lowerAscii (prescribed_brand m)) (lit "illegible") = false))
  /\
  (forall entries,
     getProp (if truthy parsed then parsed else VObj []) (lit "medications") = VArr entries ->
     length (medications r) <= length entries).
Proof.
  intros E. pose proof E as Em. apply normalize_medications in Em. split.
  - intros m Hm.
    destruct (normalizeMedications_entries _ _ Em Hm) as (Hk & _).
    apply keepMedication_true in Hk. cbv zeta in Hk.
    destruct Hk as (Hne & Hlen & Hnp & Hil). split.
    + intros Hb. apply Hne. rewrite Hb. now apply toLowerCase_ascii.
    + intros Ha. rewrite (toLowerCase_ascii _ Ha) in Hlen, Hnp, Hil.
      rewrite length_map in Hlen. auto.
  - intros entries He. rewrite He in Em. unfold normalizeMedications in Em.
    apply bind_return in Em as (ms & Ems & Em). injection Em as <-.
    apply mapT_return in Ems. apply Forall2_length in Ems. rewrite Ems.
    apply filter_length_le.
Qed.

(** X8.  The metadata of a result: a field that the response leaves out, or
    gives as [null] or an empty string, gets its default, [Not provided in
    image] for the doctor and the date and [INR] for the currency; a field
    that is given is sanitised. *)
Theorem normalize_metadata (parsed : value) (r : AnalysisResult) :
  normalize parsed = Return r ->
  let given (key : jsstring) := sourceMetadata parsed key in
  (doctor (metadata r)
   = if truthy (given (lit "doctor")) then sanitizeString (given (lit "doctor"))
     else lit "Not provided in image")
  /\
  (date (metadata r)
   = if truthy (given (lit "date")) then sanitizeString (given (lit "date"))
     else lit "Not provided in image")
  /\
  (currency (metadata r)
   = if truthy (given (lit "currency")) then sanitizeString (given (lit "currency"))
     else lit "INR").
Proof.
  unfold normalize. destruct (assignable _); [|discriminate].
  intros E. apply bind_return in E as (meds & _ & E).
  apply bind_return in E as (md & Ed & E). injection E as <-.
  unfold normalizeMetadata in Ed.
  destruct (assignable (if truthy _ then _ else _)); [|discriminate].
  injection Ed as <-. cbv zeta. unfold sourceMetadata, orElse.
  cbn [metadata doctor date currency].
  repeat split;
    match goal with
    | |- context [truthy ?v] => destruct (truthy v)
    end; reflexivity.
Qed.

(** X9.  A parsed value without any of the four sections, be it [null], an
    empty object, an array or an object of other fields, is normalised to
    the result made of the defaults alone. *)
Theorem normalize_sectionless (parsed0 : value) :
  let parsed := if truthy parsed0 then parsed0 else VObj [] in
  assignable parsed = true ->
  getProp parsed (lit "metadata") = VUndefined ->
  getProp parsed (lit "medications") = VUndefined ->
  getProp parsed (lit "bhashini_summary") = VUndefined ->
  getProp parsed (lit "disclaimer") = VUndefined ->
  normalize parsed0 = Return defaultResult.
Proof.
  cbv zeta. unfold normalize. intros -> -> -> -> ->. reflexivity.
Qed.

End AnalyzeResult.

(* ===================================================================== *)
(** * Further properties of findNearestStore *)
(* ===================================================================== *)

Section StoreResult.

Context {H : Host}.

(** ** The scan of the grounding chunks *)

Lemma scanChunk_return (st : Scan) (chunk : value) :
  chunk <> VNull -> chunk <> VUndefined ->
  exists st',
    scanChunk st chunk = Return st'
    /\ scan_mapUri st'
       = (if truthy (chunkUri chunk) then sanitizeString (chunkUri chunk)
          else scan_mapUri st)
    /\ scan_name st'
       = (if truthy (chunkTitle chunk) then sanitizeString (chunkTitle chunk)
          else scan_name st).
Proof.
  intros Hn Hu. unfold chunkUri, chunkTitle.
  assert (E : scanChunk st chunk =
              if truthy (getProp chunk (lit "maps")) then
                let maps := getProp chunk (lit "maps") in
                Return {|
                  scan_mapUri := if truthy (getProp maps (lit "uri"))
                                 then sanitizeString (getProp maps (lit "uri"))
                                 else scan_mapUri st;
                  scan_name := if truthy (getProp maps (lit "title"))
                               then sanitizeString (getProp maps (lit "title"))
                               else scan_name st;
                  scan_snippets :=
                    match match getProp maps (lit "placeAnswerSources") with
                          | VNull | VUndefined => VUndefined
                          | sources => getProp sources (lit "reviewSnippets")
                          end with
                    | VArr vs => scan_snippets st ++ lit " "
                                 ++ join (lit ". ") (map sanitizeString vs)
                    | _ => scan_snippets st
                    end |}
              else Return st).
  { destruct chunk; try contradiction; reflexivity. }
  rewrite E. destruct (truthy (getProp chunk (lit "maps"))) eqn:Em.
  - eexists. split; [reflexivity|]. split; reflexivity.
  - exists st. split; [reflexivity|].
    assert (Hg : forall k, getProp (getProp chunk (lit "maps")) k = VUndefined).
    { intros k. destruct (getProp chunk (lit "maps")); try reflexivity.
      discriminate Em. }
    rewrite !Hg. split; reflexivity.
Qed.

Lemma scanChunk_throw (st : Scan) (chunk : value) (e : exn) :
  scanChunk st chunk = Throw e -> chunk = VNull \/ chunk = VUndefined.
Proof.
  intros E.
  destruct chunk as [| | b|x|s|elems|props]; auto; exfalso;
    match type of E with
    | scanChunk _ ?c = _ =>
        destruct (scanChunk_return st (chunk := c)) as (st' & E' & _);
          [discriminate|discriminate|congruence]
    end.
Qed.

Lemma scanChunks_returns (chunks : list value) : forall st,
  (exists st', scanChunks st chunks = Return st') <->
  (forall c, In c chunks -> c <> VNull /\ c <> VUndefined).
Proof.
  induction chunks as [|c r IH]; intros st; simpl.
  - split; [intros _ c []|intros _; now exists st].
  - split.
    + intros (st' & E). apply bind_return in E as (st1 & E1 & E).
      intros c' [<-|Hin].
      * split; intros ->; discriminate E1.
      * apply (proj1 (IH st1)); [now exists st'|exact Hin].
    + intros Hall. destruct (Hall c (or_introl eq_refl)) as [Hn Hu].
      destruct (scanChunk_return st Hn Hu) as (st1 & -> & _). simpl.
      apply IH. intros c' Hin. apply Hall. now right.
Qed.

Lemma scanChunks_throw (chunks : list value) : forall st e,
  scanChunks st chunks = Throw e ->
  exists c, In c chunks /\ (c = VNull \/ c = VUndefined).
Proof.
  induction chunks as [|c r IH]; intros st e; simpl; [discriminate|].
  intros E. apply bind_throw in E as [E|(st1 & _ & E)].
  - apply scanChunk_throw in E. exists c. auto.
  - destruct (IH _ _ E) as (c' & Hin & Hc). exists c'. auto.
Qed.

Lemma scanChunks_app (a b : list value) : forall st,
  scanChunks st (a ++ b) = bind (scanChunks st a) (fun st' => scanChunks st' b).
Proof.
  induction a as [|c a IH]; intros st; simpl; [reflexivity|].
  destruct (scanChunk st c) as [st1|e]; simpl; [apply IH|reflexivity].
Qed.

Lemma scanChunk_step (st st' : Scan) (chunk : value) :
  scanChunk st chunk = Return st' ->
  scan_mapUri st'
  = (if truthy (chunkUri chunk) then sanitizeString (chunkUri chunk)
     else scan_mapUri st)
  /\ scan_name st'
     = (if truthy (chunkTitle chunk) then sanitizeString (chunkTitle chunk)
        else scan_name st).
Proof.
  intros E.
  assert (Hn : chunk <> VNull) by (intros ->; discriminate E).
  assert (Hu : chunk <> VUndefined) by (intros ->; discriminate E).
  destruct (scanChunk_return st Hn Hu) as (st1 & E1 & Huri & Hname).
  rewrite E1 in E. injection E as <-. auto.
Qed.

Lemma scanChunks_keep (chunks : list value) : forall st st',
  scanChunks st chunks = Return st' ->
  ((forall c, In c chunks -> truthy (chunkUri c) = false) ->
   scan_mapUri st' = scan_mapUri st)
  /\
  ((forall c, In c chunks -> truthy (chunkTitle c) = false) ->
   scan_name st' = scan_name st).
Proof.
  induction chunks as [|c r IH]; intros st st'; simpl.
  - intros [= <-]. auto.
  - intros E. apply bind_return in E as (st1 & E1 & E).
    apply scanChunk_step in E1 as [Huri Hname].
    destruct (IH _ _ E) as [IHu IHn]. split; intros Hall.
    + rewrite IHu by (intros; apply Hall; now right).
      now rewrite Huri, (Hall c (or_introl eq_refl)).
    + rewrite IHn by (intros; apply Hall; now right).
      now rewrite Hname, (Hall c (or_introl eq_refl)).
Qed.

(** What [findNearestStore] returns on a response with a first candidate
    whose chunks can all be read. *)
Lemma findNearestStore_some (lat lng : number) (response : GenerateContentResponse)
    (loc : StoreLocation) :
  findNearestStore lat lng (Return response) = Return (Some loc) ->
  exists cand rest st,
    candidates response = Some (cand :: rest)
    /\ scanChunks scanStart (chunksOf cand) = Return st
    /\ name loc = (if nonEmpty (sanitizeString (VStr (scan_name st)))
                   then sanitizeString (VStr (scan_name st)) else placeholder)
    /\ mapUri loc = sanitizeString (VStr (if nonEmpty (scan_mapUri st)
                                          then scan_mapUri st else searchUrl lat lng))
    /\ address loc
       = sanitizeString (VStr
           (if negb (nonEmpty (sanitizeString (VStr (cleanAnswer response))))
               || (length (sanitizeString (VStr (cleanAnswer response))) <? 5)
            then lit "Jan Aushadhi Kendra (Verified Store)"
                 ++ (if nonEmpty (scan_snippets st)
                     then lit ": " ++ scan_snippets st else [])
            else sanitizeString (VStr (cleanAnswer response)))).
Proof.
  unfold findNearestStore. simpl bind. unfold extractStore.
  destruct (candidates response) as [[|cand rest]|]; try discriminate.
  destruct (scanChunks scanStart (chunksOf cand)) as [st|e] eqn:Es; [|discriminate].
  simpl bind. intros E. injection E as <-.
  exists cand, rest, st.
  split; [reflexivity|]. split; [exact Es|]. repeat split; reflexivity.
Qed.

(** X12.  The name of a returned store is never empty and never the artifact;
    it is the placeholder [Jan Aushadhi Kendra] when no chunk carries a
    title. *)
Theorem findNearestStore_name (lat lng : number) (response : GenerateContentResponse)
    (loc : StoreLocation) :
  findNearestStore lat lng (Return response) = Return (Some loc) ->
  name loc <> [] /\ name loc <> artifact
  /\ (forall cand rest,
        candidates response = Some (cand :: rest) ->
        (forall c, In c (chunksOf cand) -> truthy (chunkTitle c) = false) ->
        name loc = lit "Jan Aushadhi Kendra").
Proof.
  intros E. apply findNearestStore_some in E
    as (cand & rest & st & Ec & Es & Hname & _ & _).
  rewrite Hname. split; [|split].
  - destruct (nonEmpty (sanitizeString (VStr (scan_name st)))) eqn:En.
    + now apply nonEmpty_true.
    + discriminate.
  - destruct (nonEmpty (sanitizeString (VStr (scan_name st)))).
    + apply sanitizeString_not_artifact.
    + discriminate.
  - intros cand' rest' Ec' Hall. rewrite Ec in Ec'. injection Ec' as <- <-.
    destruct (scanChunks_keep _ _ Es) as [_ Hkeep].
    rewrite (Hkeep Hall). reflexivity.
Qed.

(** X13.  When no chunk of the first candidate carries a URI, the map URI of
    the returned store is the search URL built from the two coordinates as
    the host prints them. *)
Theorem findNearestStore_constructed_uri (lat lng : number)
    (response : GenerateContentResponse) (loc : StoreLocation)
    (cand : Candidate) (rest : list Candidate) :
  findNearestStore lat lng (Return response) = Return (Some loc) ->
  candidates response = Some (cand :: rest) ->
  (forall c, In c (chunksOf cand) -> truthy (chunkUri c) = false) ->
  mapUri loc
  = lit "https://www.google.com/maps/search/Pradhan+Mantri+Bhartiya+Janaushadhi+Kendra/@"
    ++ Number_toString lat ++ lit "," ++ Number_toString lng ++ lit ",15z".
Proof.
  intros E Ec Hall. apply findNearestStore_some in E
    as (cand' & rest' & st & Ec' & Es & _ & Huri & _).
  rewrite Ec in Ec'. injection Ec' as <- <-.
  destruct (scanChunks_keep _ _ Es) as [Hkeep _].
  rewrite Huri, (Hkeep Hall). cbn [scanStart scan_mapUri nonEmpty str_eqb negb].
  apply sanitizeString_searchUrl.
Qed.

(** X14.  A URI given as an ordinary string, one that begins with a character
    other than white space, an opening brace or an opening bracket, is
    returned as it is when it is the last one among the chunks: the chunks
    before it do not count. *)
Theorem findNearestStore_last_uri (lat lng : number)
    (response : GenerateContentResponse) (loc : StoreLocation)
    (cand : Candidate) (rest : list Candidate)
    (before after : list value) (chunk : value) (h : char16) (t : jsstring) :
  findNearestStore lat lng (Return response) = Return (Some loc) ->
  candidates response = Some (cand :: rest) ->
  chunksOf cand = before ++ chunk :: after ->
  (forall c, In c after -> truthy (chunkUri c) = false) ->
  chunkUri chunk = VStr (h :: t) ->
  isWhiteSpace h = false -> h <> 123%N -> h <> 91%N ->
  mapUri loc = h :: t.
Proof.
  intros E Ec Hchunks Hafter Hu Hw Hb Ha. apply findNearestStore_some in E
    as (cand' & rest' & st & Ec' & Es & _ & Huri & _).
  rewrite Ec in Ec'. injection Ec' as <- <-.
  rewrite Hchunks, scanChunks_app in Es.
  apply bind_return in Es as (st1 & _ & Es). simpl in Es.
  apply bind_return in Es as (st2 & E2 & Es).
  apply scanChunk_step in E2 as [E2 _].
  destruct (scanChunks_keep _ _ Es) as [Hkeep _].
  rewrite Huri, (Hkeep Hafter), E2, Hu.
  cbn [truthy str_eqb negb].
  rewrite (sanitizeString_plain_head t Hw Hb Ha).
  cbn [nonEmpty str_eqb negb]. now apply sanitizeString_plain_head.
Qed.

Lemma findNearestStore_never_fails (lat lng : number) (ai : outcome GenerateContentResponse) :
  exists r, findNearestStore lat lng ai = Return r.
Proof.
  unfold findNearestStore.
  destruct (bind ai (extractStore lat lng)) as [r|e]; eexists; reflexivity.
Qed.

(** ** The address *)

Lemma removeAll_char (c : char16) (s : jsstring) : ~ In c (removeAll [c] s).
Proof.
  unfold removeAll. induction s as [|x s IH]; simpl; [tauto|].
  destruct (N.eqb_spec c x) as [->|Hx]; simpl.
  - exact IH.
  - intros [E|Hin]; [now apply Hx|contradiction].
Qed.

Lemma trim_In (c : char16) (s : jsstring) : In c (trim s) -> In c s.
Proof.
  intros Hc. destruct (trim_decompose s) as (ws & ws' & Hs & _ & _).
  rewrite Hs. apply in_or_app. right. apply in_or_app. now left.
Qed.

(** What one chunk adds to the snippets. *)
Lemma scanChunk_snippets (st st' : Scan) (chunk : value) :
  scanChunk st chunk = Return st' ->
  scan_snippets st'
  = scan_snippets st
    ++ match chunkReviews chunk with
       | Some vs => lit " " ++ join (lit ". ") (map sanitizeString vs)
       | None => []
       end.
Proof.
  intros E.
  assert (E' : scanChunk st chunk =
               if truthy (getProp chunk (lit "maps")) then
                 let maps := getProp chunk (lit "maps") in
                 Return {|
                   scan_mapUri := if truthy (getProp maps (lit "uri"))
                                  then sanitizeString (getProp maps (lit "uri"))
                                  else scan_mapUri st;
                   scan_name := if truthy (getProp maps (lit "title"))
                                then sanitizeString (getProp maps (lit "title"))
                                else scan_name st;
                   scan_snippets :=
                     match match getProp maps (lit "placeAnswerSources") with
                           | VNull | VUndefined => VUndefined
                           | sources => getProp sources (lit "reviewSnippets")
                           end with
                     | VArr vs => scan_snippets st ++ lit " "
                                  ++ join (lit ". ") (map sanitizeString vs)
                     | _ => scan_snippets st
                     end |}
               else Return st).
  { destruct chunk; try discriminate E; reflexivity. }
  rewrite E' in E. clear E'. unfold chunkReviews. cbv zeta in *.
  set (reviews := match getProp (getProp chunk (lit "maps")) (lit "placeAnswerSources") with
                  | VNull | VUndefined => VUndefined
                  | sources => getProp sources (lit "reviewSnippets")
                  end) in *.
  clearbody reviews.
  destruct (truthy (getProp chunk (lit "maps"))).
  - injection E as <-. cbn [scan_snippets].
    destruct reviews; now rewrite ?app_nil_r.
  - injection E as <-. now rewrite app_nil_r.
Qed.

Lemma scanChunks_snippets (chunks : list value) : forall st st',
  scanChunks st chunks = Return st' ->
  scan_snippets st' = scan_snippets st ++ reviewText chunks.
Proof.
  unfold reviewText.
  induction chunks as [|c r IH]; intros st st'; simpl.
  - intros [= <-]. now rewrite app_nil_r.
  - intros E. apply bind_return in E as (st1 & E1 & E).
    rewrite (IH _ _ E), (scanChunk_snippets _ _ E1). now rewrite app_assoc.
Qed.

(** The snippets are empty exactly when no chunk carries an array of
    reviews: each array adds a space at least. *)
Lemma reviewText_nonEmpty (chunks : list value) :
  nonEmpty (reviewText chunks) = existsb hasReviews chunks.
Proof.
  unfold reviewText, hasReviews.
  induction chunks as [|c r IH]; [reflexivity|].
  cbn [map concat existsb].
  destruct (chunkReviews c) as [vs|]; [reflexivity|exact IH].
Qed.

(** X15.  When the answer of the model is missing, or shorter than five code
    units once sanitised, the address is the fixed text [Jan Aushadhi Kendra
    (Verified Store)] and nothing more when no chunk of the first candidate
    carries an array of review snippets; when one does, the fixed text is
    followed by a colon, a space and the snippets of all the chunks in
    their order, each array preceded by a space and its sanitised entries
    separated by a full stop and a space. *)
Theorem findNearestStore_fallback_address (lat lng : number)
    (response : GenerateContentResponse) (loc : StoreLocation)
    (cand : Candidate) (rest : list Candidate) :
  findNearestStore lat lng (Return response) = Return (Some loc) ->
  candidates response = Some (cand :: rest) ->
  length (sanitizeString (VStr (cleanAnswer response))) < 5 ->
  address loc
  = lit "Jan Aushadhi Kendra (Verified Store)"
    ++ (if existsb hasReviews (chunksOf cand)
        then lit ": " ++ reviewText (chunksOf cand)
        else []).
Proof.
  intros E Ec Hshort. apply findNearestStore_some in E
    as (cand' & rest' & st & Ec' & Es & _ & _ & Haddr).
  rewrite Ec in Ec'. injection Ec' as <- <-.
  apply Nat.ltb_lt in Hshort. rewrite Hshort, orb_true_r in Haddr.
  apply scanChunks_snippets in Es. cbn [scanStart scan_snippets app] in Es.
  rewrite Es, reviewText_nonEmpty in Haddr. rewrite Haddr.
  change (lit "Jan Aushadhi Kendra (Verified Store)")
    with (74%N :: lit "an Aushadhi Kendra (Verified Store)").
  rewrite <- app_comm_cons.
  apply sanitizeString_plain_head; [reflexivity|discriminate|discriminate].
Qed.

(** X16.  When the answer of the model, cleaned of its asterisks and trimmed, is
    ordinary text of five code units or more (it neither starts with an
    opening brace nor is the artifact), it is the address, as it is: no
    asterisk, no white space around it. *)
Theorem findNearestStore_answer_address (lat lng : number)
    (response : GenerateContentResponse) (loc : StoreLocation) :
  findNearestStore lat lng (Return response) = Return (Some loc) ->
  startsWith (cleanAnswer response) (lit "{") = false ->
  cleanAnswer response <> artifact ->
  5 <= length (cleanAnswer response) ->
  address loc = cleanAnswer response
  /\ ~ In 42%N (address loc)
  /\ trim (address loc) = address loc.
Proof.
  intros E Hb Ha Hlen. apply findNearestStore_some in E
    as (cand & rest & st & _ & _ & _ & _ & Haddr).
  assert (Ht : trim (cleanAnswer response) = cleanAnswer response)
    by apply trim_idempotent.
  assert (Hs : sanitizeString (VStr (cleanAnswer response)) = cleanAnswer response).
  { apply sanitizeString_plain; now rewrite Ht. }
  rewrite Hs in Haddr.
  assert (Hn : nonEmpty (cleanAnswer response) = true).
  { apply nonEmpty_true. intros E. rewrite E in Hlen. simpl in Hlen. lia. }
  assert (Hl : (length (cleanAnswer response) <? 5) = false) by now apply Nat.ltb_ge.
  rewrite Hn, Hl in Haddr. cbn [negb orb] in Haddr. rewrite Hs in Haddr.
  rewrite Haddr.
  split; [reflexivity|]. split; [|exact Ht].
  intros Hin. apply trim_In in Hin. now apply removeAll_char in Hin.
Qed.

End StoreResult.

(* ===================================================================== *)
(** * The two messages of the JSON extraction *)
(* ===================================================================== *)

Section ExtractMessages.

Context {H : Host}.

Lemma dropUntil_none (c : char16) (s : jsstring) :
  dropUntil c s = None <-> ~ In c s.
Proof.
  induction s as [|x s IH]; simpl; [tauto|].
  destruct (N.eqb_spec x c) as [->|Hx].
  - split; [discriminate|]. intros Hn. exfalso. apply Hn. now left.
  - rewrite IH. split.
    + intros Hn [E|Hin]; auto.
    + intros Hn Hin. apply Hn. now right.
Qed.

Lemma dropUntil_keeps (c x : char16) (a b t : jsstring) :
  dropUntil c (a ++ c :: b) = Some t -> In x b -> In x t.
Proof.
  induction a as [|y a IH]; simpl.
  - rewrite N.eqb_refl. intros [= <-] Hx. now right.
  - destruct (N.eqb_spec y c) as [->|_].
    + intros [= <-] Hx. right. apply in_or_app. right. now right.
    + exact IH.
Qed.

(** [matchBraces] finds nothing exactly when no opening brace of the text
    has a closing brace after it. *)
Lemma matchBraces_none (text : jsstring) :
  matchBraces text = None <->
  ~ exists pre mid post, text = pre ++ 123%N :: mid ++ 125%N :: post.
Proof.
  split.
  - intros Hm (pre & mid & post & ->). unfold matchBraces in Hm.
    destruct (dropUntil 123%N (pre ++ 123%N :: mid ++ 125%N :: post))
      as [fromOpen|] eqn:E1.
    + assert (Hin : In 125%N fromOpen).
      { eapply dropUntil_keeps; [exact E1|]. apply in_or_app. right. now left. }
      destruct (dropUntil 125%N (rev fromOpen)) eqn:E2; [discriminate|].
      apply dropUntil_none in E2. apply E2. now apply in_rev in Hin.
    + apply dropUntil_none in E1. apply E1. apply in_or_app. right. now left.
  - intros Hno. destruct (matchBraces text) as [span|] eqn:Em; [|reflexivity].
    exfalso. apply Hno.
    apply matchBraces_inv in Em as (pre & mid & post & -> & _ & _ & Hs & ->).
    destruct mid as [|m mid'].
    + discriminate Hs.
    + apply startsWith_app in Hs as (r & Hr). injection Hr as -> _.
      exists pre, mid', post. now rewrite <- app_assoc.
Qed.

(** X10.  The extraction step has two errors, told apart by their messages:
    [No JSON structure found in text] when the text, which does not parse
    once cleaned, has no opening brace followed by a closing brace, and
    [Failed to parse AI response as JSON] when it has, and the span from
    the first to the last does not parse either. *)
Theorem extractJson_messages (text : jsstring) :
  (extractJson text = Throw (Error "No JSON structure found in text") <->
   JSON_parse (cleanText text) = None
   /\ ~ exists pre mid post, text = pre ++ 123%N :: mid ++ 125%N :: post)
  /\
  (extractJson text = Throw (Error "Failed to parse AI response as JSON") <->
   JSON_parse (cleanText text) = None
   /\ exists span, matchBraces text = Some span /\ JSON_parse span = None)
  /\
  (forall e, extractJson text = Throw e ->
     e = Error "No JSON structure found in text"
     \/ e = Error "Failed to parse AI response as JSON").
Proof.
  rewrite <- matchBraces_none. unfold extractJson.
  destruct (JSON_parse (cleanText text)) as [v|].
  - split; [|split].
    + split; [discriminate|intros [E _]; discriminate].
    + split; [discriminate|intros [E _]; discriminate].
    + discriminate.
  - destruct (matchBraces text) as [span|].
    + destruct (JSON_parse span) as [v|] eqn:Ev.
      * split; [|split].
        -- split; [discriminate|intros [_ E]; discriminate].
        -- split; [discriminate|]. intros (_ & span' & Es & E).
           injection Es as <-. congruence.
        -- discriminate.
      * split; [|split].
        -- split; [discriminate|intros [_ E]; discriminate].
        -- split; [|reflexivity]. intros _. split; [reflexivity|].
           exists span. split; [reflexivity|exact Ev].
        -- intros e [= <-]. now right.
    + split; [|split].
      * split; auto.
      * split; [discriminate|]. intros (_ & span & E & _). discriminate.
      * intros e [= <-]. now left.
Qed.

End ExtractMessages.

(* ===================================================================== *)
(** * Properties of generateSpeech *)
(* ===================================================================== *)

Section Speech.

Context {H : Host}.

(** X17.  [generateSpeech] returns an audio payload only when the first part of
    the first candidate carries inline data, and the payload is then that
    data and is not empty.  In every other case it throws: the provider's
    own error, or [No audio content returned]. *)
Theorem generateSpeech_result (ai : outcome SpeechResponse) :
  (forall audio,
     generateSpeech ai = Return audio <->
     audio <> []
     /\ exists response cand cands body part others inline,
          ai = Return response
          /\ speechCandidates response = Some (cand :: cands)
          /\ content cand = Some body
          /\ parts body = Some (part :: others)
          /\ inlineData part = Some inline
          /\ data inline = Some audio)
  /\
  (forall e, generateSpeech ai = Throw e ->
     ai = Throw e \/ e = Error "No audio content returned").
Proof.
  split.
  - intros audio. unfold generateSpeech, base64Audio. split.
    + intros E. apply bind_return in E as (response & -> & E).
      destruct (speechCandidates response) as [[|cand cands]|] eqn:Ec;
        simpl in E; try discriminate.
      destruct (content cand) as [body|] eqn:Eb; simpl in E; try discriminate.
      destruct (parts body) as [[|part others]|] eqn:Ep; simpl in E; try discriminate.
      destruct (inlineData part) as [inline|] eqn:Ei; simpl in E; try discriminate.
      destruct (data inline) as [audio'|] eqn:Ed; simpl in E; try discriminate.
      destruct (nonEmpty audio') eqn:En; [|discriminate]. injection E as <-.
      split; [now apply nonEmpty_true|].
      exists response, cand, cands, body, part, others, inline. auto 10.
    + intros (Hne & response & cand & cands & body & part & others & inline
              & -> & Ec & Eb & Ep & Ei & Ed).
      simpl. rewrite Ec. simpl. rewrite Eb. simpl. rewrite Ep. simpl.
      rewrite Ei. simpl. rewrite Ed. apply nonEmpty_true in Hne. now rewrite Hne.
  - intros e E. unfold generateSpeech in E.
    apply bind_throw in E as [E|(response & _ & E)]; [now left|]. right.
    destruct (base64Audio response) as [audio|].
    + destruct (nonEmpty audio); [discriminate|]. now injection E as <-.
    + now injection E as <-.
Qed.

End Speech.

(* ===================================================================== *)
(** * Properties of the JanAushadhiLocator component *)
(* ===================================================================== *)

Section Locator.

Context {H : Host}.

Lemma userMessage_nonEmpty (err : PositionError) : userMessage err <> [].
Proof.
  unfold userMessage.
  destruct (N.eqb (code err) PERMISSION_DENIED); [discriminate|].
  destruct (N.eqb (code err) POSITION_UNAVAILABLE); [discriminate|].
  destruct (N.eqb (code err) TIMEOUT); [discriminate|].
  destruct (message err) as [| | b|x|m|elems|props]; try discriminate.
  destruct (nonEmpty m) eqn:En; [now apply nonEmpty_true|discriminate].
Qed.

(** X18.  A geolocation error always ends the attempt with a message, never an
    empty one; the permission flag is raised for the code
    [PERMISSION_DENIED] and no other; and the message of the error object
    is shown only for a code that is none of the three known ones: for
    those the text is fixed. *)
Theorem handleLocate_geolocation_error (err : PositionError) (st : LocatorState) :
  let st' := handleLocate (Failed err) st in
  loading st' = false
  /\ store st' = store st
  /\ (exists m, error st' = Some m /\ m <> [])
  /\ (permissionDenied st' = true <-> code err = PERMISSION_DENIED)
  /\ (code err = PERMISSION_DENIED \/ code err = POSITION_UNAVAILABLE
      \/ code err = TIMEOUT ->
      forall other, error st' = Some (userMessage {| code := code err; message := other |})).
Proof.
  cbv zeta. unfold handleLocate, onError, resetState.
  cbn [loading store error permissionDenied].
  split; [reflexivity|]. split; [reflexivity|].
  split; [exists (userMessage err); split; [reflexivity|apply userMessage_nonEmpty]|].
  split.
  - destruct (N.eqb_spec (code err) PERMISSION_DENIED); split; auto; discriminate.
  - intros Hc other. f_equal. unfold userMessage. cbn [code message].
    destruct Hc as [->|[->| ->]]; reflexivity.
Qed.

(** X19.  The success callback composed with [findNearestStore]: the attempt
    ends either with the store found and no message, or with the message
    [Unable to find a store nearby...] and the store as it was.  The
    message [Connection issue...] of the [catch] on line 47 is never shown:
    a provider call that fails ends like a search without result. *)
Theorem handleLocate_position (latitude longitude : number)
    (ai : outcome GenerateContentResponse) (st : LocatorState) :
  let st' := handleLocate (Position latitude longitude ai) st in
  let unable := lit "Unable to find a store nearby. Please try again or search on Google Maps." in
  loading st' = false
  /\ error st' <> Some (lit "Connection issue. Please check your internet and try again.")
  /\ ((exists loc, findNearestStore latitude longitude ai = Return (Some loc)
                   /\ store st' = Some loc /\ error st' = None)
      \/ (findNearestStore latitude longitude ai = Return None
          /\ store st' = store st /\ error st' = Some unable))
  /\ (forall e, ai = Throw e -> error st' = Some unable).
Proof.
  cbv zeta. unfold handleLocate.
  destruct (findNearestStore_never_fails latitude longitude ai) as (r & Er).
  rewrite Er. destruct r as [loc|]; cbn [onPosition resetState loading store error].
  - split; [reflexivity|]. split; [discriminate|]. split.
    + left. exists loc. auto.
    + intros e ->. discriminate Er.
  - split; [reflexivity|]. split; [discriminate|]. split.
    + right. auto.
    + reflexivity.
Qed.

(** X20.  Every attempt that gets its answer settles: whatever the browser
    and the provider do, the component is no longer loading, and, started
    without a store, it ends with a store or with a message, never with
    both and never with neither. *)
Theorem handleLocate_settles (geo : Geolocation) (st : LocatorState) :
  store st = None ->
  let st' := handleLocate geo st in
  loading st' = false
  /\ ((exists loc, store st' = Some loc /\ error st' = None)
      \/ (exists m, store st' = None /\ error st' = Some m /\ m <> [])).
Proof.
  intros Hs. cbv zeta. destruct geo as [|latitude longitude ai|err].
  - unfold handleLocate. cbn [loading store error resetState]. split; [reflexivity|].
    right. eexists. rewrite Hs. split; [reflexivity|]. split; [reflexivity|discriminate].
  - unfold handleLocate.
    destruct (findNearestStore_never_fails latitude longitude ai) as (r & Er).
    rewrite Er. destruct r as [loc|]; cbn [onPosition resetState loading store error].
    + split; [reflexivity|]. left. now exists loc.
    + split; [reflexivity|]. right. eexists. rewrite Hs.
      split; [reflexivity|]. split; [reflexivity|discriminate].
  - unfold handleLocate, onError. cbn [loading store error resetState].
    split; [reflexivity|]. right. exists (userMessage err). rewrite Hs.
    split; [reflexivity|]. split; [reflexivity|apply userMessage_nonEmpty].
Qed.

End Locator.

(* ===================================================================== *)
(** * Extraction and normalisation together *)
(* ===================================================================== *)

Section AnalyzeFenced.

Context {H : Host}.

Lemma cleanText_bare (body : jsstring) :
  ~ In 96%N body -> cleanText body = trim body.
Proof.
  intros Hb. unfold cleanText.
  rewrite <- (app_nil_r body) at 1.
  change (lit "```json") with (96%N :: lit "``json").
  rewrite removeAll_free by exact Hb.
  change (removeAll (96%N :: lit "``json") []) with (@nil N).
  change (lit "```") with (96%N :: lit "``").
  rewrite removeAll_free by exact Hb.
  change (removeAll (96%N :: lit "``") []) with (@nil N).
  now rewrite !app_nil_r.
Qed.

(** X21.  Code fences are transparent.  A response that is JSON text, with
    no backtick in it, is analysed to the normal form of the value it
    denotes, and so is the same text wrapped in a [```json] fence and a
    [```] fence. *)
Theorem analyzePrescription_fenced (body : jsstring) (v : value) :
  ~ In 96%N body -> JSON_parse (trim body) = Some v ->
  analyzePrescription (Return (Some body)) = normalize v
  /\ analyzePrescription (Return (Some (lit "```json" ++ body ++ lit "```")))
     = normalize v.
Proof.
  intros Hb Hv. unfold analyzePrescription, bind. split.
  - assert (Hne : nonEmpty body = true).
    { apply nonEmpty_true. intros ->. discriminate Hv. }
    rewrite Hne. unfold extractJson. now rewrite (@cleanText_bare body Hb), Hv.
  - assert (Hne : nonEmpty (lit "```json" ++ body ++ lit "```") = true)
      by reflexivity.
    rewrite Hne. unfold extractJson. now rewrite (@cleanText_fenced body Hb), Hv.
Qed.

End AnalyzeFenced.

(* ===================================================================== *)
(** * The sanitiser on a finite stack *)
(* ===================================================================== *)

Section Stack.

Context {H : Host}.

(** ** Depth *)

Lemma depth_pos (v : value) : 1 <= depth v.
Proof.
  destruct v as [| | b|x|s|elems|props]; cbn [depth]; try lia.
  destruct (attempted s); lia.
Qed.

Lemma list_max_In (A : Type) (f : A -> nat) (e : A) (l : list A) :
  In e l -> f e <= list_max (map f l).
Proof.
  intros Hin.
  pose proof (proj1 (list_max_le (map f l) (list_max (map f l))) (le_n _)) as Hall.
  rewrite Forall_forall in Hall. apply Hall. now apply in_map.
Qed.

Lemma depth_elem (e : value) (elems : list value) :
  In e elems -> depth e < depth (VArr elems).
Proof.
  intros Hin. cbn [depth]. apply Nat.lt_succ_r.
  exact (list_max_In depth e elems Hin).
Qed.

Lemma depth_lookup (o : list (jsstring * value)) (k : jsstring) (w : value) :
  lookup o k = Some w -> depth w < depth (VObj o).
Proof.
  intros E. assert (Hin : exists k', In (k', w) o).
  { revert E. induction o as [|[k' v] r IH]; cbn [lookup]; [discriminate|].
    destruct (lookup r k) as [later|].
    - intros E. injection E as ->. destruct (IH eq_refl) as (k0 & Hin).
      exists k0. now right.
    - destruct (str_eqb k' k); [|discriminate].
      intros E. injection E as ->. exists k'. now left. }
  destruct Hin as (k' & Hin). cbn [depth]. apply Nat.lt_succ_r.
  exact (list_max_In (fun kv => depth (snd kv)) (k', w) o Hin).
Qed.

Lemma depth_getProp (v : value) (k : jsstring) : depth (getProp v k) <= depth v.
Proof.
  destruct v as [| | b|x|s|elems|props]; try apply depth_pos.
  cbn [getProp]. destruct (lookup props k) as [w|] eqn:E.
  - apply depth_lookup in E. lia.
  - apply depth_pos.
Qed.

Lemma depth_firstPresent (o : list (jsstring * value)) (keys : list jsstring) (w : value) :
  firstPresent (VObj o) keys = Some w -> depth w < depth (VObj o).
Proof.
  intros E. apply firstPresent_lookup in E as (key & E). now apply depth_lookup in E.
Qed.

Lemma depth_single_key (o : list (jsstring * value)) (k : jsstring) :
  Object_keys o = [k] -> depth (getProp (VObj o) k) < depth (VObj o).
Proof.
  intros E. apply distinct_head in E. apply lookup_key in E as (w & E).
  cbn [getProp]. rewrite E. now apply depth_lookup in E.
Qed.

Lemma list_sum_In (A : Type) (f : A -> nat) (a : A) (l : list A) :
  In a l -> f a <= list_sum (map f l).
Proof.
  induction l as [|b r IH]; simpl; [contradiction|].
  intros [->|Hin]; [lia|]. specialize (IH Hin). lia.
Qed.

(** The depth of a value is at most its size. *)
Lemma depth_weight (n : nat) : forall v, weight v <= n -> depth v <= weight v.
Proof.
  induction n as [|n IH]; intros v Hw.
  - destruct v; simpl in Hw; lia.
  - destruct v as [| | b|x|s|elems|props]; cbn [depth weight] in *; try lia.
    + destruct (attempted s); lia.
    + apply le_n_S. apply list_max_le, Forall_forall. intros d Hd.
      apply in_map_iff in Hd as (e & <- & Hin).
      pose proof (list_sum_In weight e elems Hin) as Hs.
      specialize (IH e). lia.
    + apply le_n_S. apply list_max_le, Forall_forall. intros d Hd.
      apply in_map_iff in Hd as (kv & <- & Hin).
      pose proof (list_sum_In (fun kv => weight (snd kv)) kv props Hin) as Hs.
      cbv beta in Hs. specialize (IH (snd kv)). lia.
Qed.

Lemma depth_decoded (s : jsstring) (p : value) :
  JSON_parse (trim s) = Some p -> depth p <= length s.
Proof.
  intros E. apply JSON_parse_weight in E.
  pose proof (trim_length s). pose proof (depth_weight p (le_n _)). lia.
Qed.

(** ** Enough stack *)

Lemma mapT_map {A B : Type} (f : A -> outcome B) (g : A -> B) (l : list A) :
  (forall a, In a l -> f a = Return (g a)) -> mapT f l = Return (map g l).
Proof.
  induction l as [|a r IH]; simpl; intros Hf; [reflexivity|].
  rewrite (Hf a (or_introl eq_refl)), IH; auto.
Qed.

Lemma mapT_ext {A B : Type} (f g : A -> outcome B) (l : list A) :
  (forall a, In a l -> f a = g a) -> mapT f l = mapT g l.
Proof.
  induction l as [|a r IH]; simpl; intros Hf; [reflexivity|].
  rewrite (Hf a (or_introl eq_refl)), IH; auto.
Qed.

Lemma mapT_throw {A B : Type} (f : A -> outcome B) (l : list A) (e : exn) :
  mapT f l = Throw e -> exists a, In a l /\ f a = Throw e.
Proof.
  induction l as [|a r IH]; simpl; [discriminate|].
  destruct (f a) as [b|e'] eqn:Ea; simpl.
  - destruct (mapT f r) as [bs|e'] eqn:Er; simpl; [discriminate|].
    intros E. injection E as ->. destruct (IH eq_refl) as (a' & Hin & Ha').
    exists a'. auto.
  - intros E. injection E as ->. exists a. auto.
Qed.

(** A stack as deep as the value is enough: the call returns, and what it
    returns is what the equation of the source defines. *)
Lemma sanitizeStringOn_enough (stack : nat) : forall v,
  depth v <= stack -> sanitizeStringOn stack v = Return (sanitizeString v).
Proof.
  induction stack as [|below IH]; intros v Hd.
  - pose proof (depth_pos v). lia.
  - rewrite (sanitizeString_eq v).
    destruct v as [| | b|x|s|elems|props]; cbn [sanitizeStringOn]; cbv zeta;
      try reflexivity.
    + cbn [depth] in Hd. unfold attempted in Hd. cbv zeta in Hd.
      destruct (str_eqb (trim s) artifact || startsWith (trim s) (qlit "{'")
                || startsWith (trim s) (lit "{")); [|reflexivity].
      destruct (JSON_parse (trim s)) as [p|] eqn:Ep; [|reflexivity].
      rewrite IH; [reflexivity|]. apply depth_decoded in Ep. lia.
    + rewrite mapT_map with (g := sanitizeString); [reflexivity|].
      intros e Hin. apply IH. apply depth_elem in Hin. lia.
    + destruct (firstPresent (VObj props) priorityKeys) as [w|] eqn:Ew.
      * apply IH. apply depth_firstPresent in Ew. lia.
      * destruct (Object_keys props) as [|k [|k' ks]] eqn:Ek; try reflexivity.
        apply IH. apply depth_single_key in Ek. lia.
Qed.

(** The only exception is the RangeError. *)
Lemma sanitizeStringOn_throw (stack : nat) : forall v e,
  sanitizeStringOn stack v = Throw e -> e = RangeError.
Proof.
  induction stack as [|below IH]; intros v e; cbn [sanitizeStringOn].
  - now intros [= <-].
  - destruct v as [| | b|x|s|elems|props]; try discriminate.
    + cbv zeta.
      destruct (str_eqb (trim s) artifact || startsWith (trim s) (qlit "{'")
                || startsWith (trim s) (lit "{")); [|discriminate].
      destruct (JSON_parse (trim s)) as [p|]; [|discriminate].
      destruct (sanitizeStringOn below p); discriminate.
    + intros E. apply bind_throw in E as [E|(rs & _ & E)]; [|discriminate].
      apply mapT_throw in E as (a & _ & E). now apply IH in E.
    + destruct (firstPresent (VObj props) priorityKeys) as [w|]; [apply IH|].
      destruct (Object_keys props) as [|k [|k' ks]]; try discriminate. apply IH.
Qed.


(** Arrays nested as deep as the stack exhaust it, whatever they hold. *)
Lemma sanitizeStringOn_nest (stack : nat) (v : value) :
  sanitizeStringOn stack (nest stack v) = Throw RangeError.
Proof.
  induction stack as [|below IH]; [reflexivity|].
  cbn [nest sanitizeStringOn mapT]. now rewrite IH.
Qed.


End Stack.

(* ===================================================================== *)
(** * analyzePrescription and findNearestStore on a finite stack *)
(* ===================================================================== *)

Section ServicesOnStack.

Context {H : Host}.

(** ** With enough stack, the unbounded recursion *)

Lemma sanitizeStringOn_prop (stack : nat) (v : value) (k : jsstring) :
  depth v <= stack ->
  sanitizeStringOn stack (getProp v k) = Return (sanitizeString (getProp v k)).
Proof.
  intros Hd. apply sanitizeStringOn_enough.
  pose proof (depth_getProp v k). lia.
Qed.

Lemma sanitizeStringOn_orElse (stack : nat) (v : value) (k d : jsstring) :
  depth v <= stack -> attempted d = false ->
  sanitizeStringOn stack (orElse (getProp v k) d)
  = Return (sanitizeString (orElse (getProp v k) d)).
Proof.
  intros Hd Ha. apply sanitizeStringOn_enough. unfold orElse.
  destruct (truthy (getProp v k)).
  - pose proof (depth_getProp v k). lia.
  - cbn [depth]. rewrite Ha. pose proof (depth_pos v). lia.
Qed.

Lemma sanitizeMedicationOn_enough (stack : nat) (m : value) :
  depth m <= stack -> sanitizeMedicationOn stack m = sanitizeMedication m.
Proof.
  intros Hd.
  destruct m as [| | b|x|s|elems|props]; try reflexivity;
    unfold sanitizeMedicationOn, sanitizeMedication;
    rewrite !sanitizeStringOn_prop by exact Hd; reflexivity.
Qed.

Lemma normalizeMedicationsOn_enough (stack : nat) (meds : value) :
  depth meds <= stack -> normalizeMedicationsOn stack meds = normalizeMedications meds.
Proof.
  intros Hd. destruct meds as [| | b|x|s|entries|props]; try reflexivity.
  unfold normalizeMedicationsOn, normalizeMedications.
  rewrite (mapT_ext (sanitizeMedicationOn stack) sanitizeMedication); [reflexivity|].
  intros e Hin. apply sanitizeMedicationOn_enough.
  apply depth_elem in Hin. lia.
Qed.

Lemma depth_default (stack : nat) (v : value) :
  depth v <= stack -> depth (if truthy v then v else VObj []) <= stack.
Proof.
  intros Hd. destruct (truthy v); [exact Hd|].
  pose proof (depth_pos v). cbn [depth map list_max fold_right]. lia.
Qed.

Lemma normalizeMetadataOn_enough (stack : nat) (md : value) :
  depth md <= stack -> normalizeMetadataOn stack md = normalizeMetadata md.
Proof.
  intros Hd. apply depth_default in Hd.
  unfold normalizeMetadataOn, normalizeMetadata. cbv zeta.
  rewrite !sanitizeStringOn_orElse by (exact Hd || reflexivity).
  cbn [bind]. destruct (assignable (if truthy md then md else VObj [])); reflexivity.
Qed.

Lemma normalizeSummaryOn_enough (stack : nat) (summary : value) :
  depth summary <= stack ->
  normalizeSummaryOn stack summary = Return (normalizeSummary summary).
Proof.
  intros Hd. apply depth_default in Hd.
  unfold normalizeSummaryOn, normalizeSummary. cbv zeta.
  rewrite sanitizeStringOn_orElse by (exact Hd || reflexivity).
  rewrite !sanitizeStringOn_prop by exact Hd. reflexivity.
Qed.

(** A stack as deep as the parsed value is enough for the normaliser. *)
Lemma normalizeOn_enough (stack : nat) (parsed0 : value) :
  depth parsed0 <= stack -> normalizeOn stack parsed0 = normalize parsed0.
Proof.
  intros Hd. apply depth_default in Hd.
  unfold normalizeOn, normalize. cbv zeta.
  set (parsed := if truthy parsed0 then parsed0 else VObj []) in *.
  destruct (assignable parsed); [|reflexivity].
  assert (Hp : forall k, depth (getProp parsed k) <= stack).
  { intros k. pose proof (depth_getProp parsed k). lia. }
  rewrite normalizeMedicationsOn_enough by apply Hp.
  destruct (normalizeMedications (getProp parsed (lit "medications"))) as [meds|e];
    [|reflexivity].
  cbn [bind]. rewrite normalizeMetadataOn_enough by apply Hp.
  destruct (normalizeMetadata (getProp parsed (lit "metadata"))) as [md|e];
    [|reflexivity].
  cbn [bind]. rewrite normalizeSummaryOn_enough by apply Hp.
  cbn [bind]. rewrite sanitizeStringOn_prop by exact Hd. reflexivity.
Qed.

(** The value extracted from a text is no deeper than the text is long. *)
Lemma removeAll_from_length (p : jsstring) (s : jsstring) : forall skip,
  length (removeAll_from p skip s) <= length s.
Proof.
  induction s as [|c r IH]; intros skip; cbn [removeAll_from length]; [lia|].
  destruct skip as [|k].
  - destruct (startsWith (c :: r) p); cbn [length].
    + specialize (IH (Nat.pred (length p))). lia.
    + specialize (IH 0). lia.
  - specialize (IH k). lia.
Qed.

Lemma cleanText_length (text : jsstring) : length (cleanText text) <= length text.
Proof.
  unfold cleanText, removeAll.
  pose proof (trim_length
                (removeAll_from (lit "```") 0 (removeAll_from (lit "```json") 0 text))).
  pose proof (removeAll_from_length (lit "```")
                (removeAll_from (lit "```json") 0 text) 0).
  pose proof (removeAll_from_length (lit "```json") text 0).
  lia.
Qed.

Lemma dropUntil_length (c : char16) (s r : jsstring) :
  dropUntil c s = Some r -> length r <= length s.
Proof.
  induction s as [|x s IH]; cbn [dropUntil]; [discriminate|].
  destruct (N.eqb x c).
  - intros E. injection E as <-. lia.
  - intros E. specialize (IH E). cbn [length]. lia.
Qed.

Lemma matchBraces_length (s span : jsstring) :
  matchBraces s = Some span -> length span <= length s.
Proof.
  unfold matchBraces.
  destruct (dropUntil 123%N s) as [fromOpen|] eqn:E1; [|discriminate].
  destruct (dropUntil 125%N (rev fromOpen)) as [revSpan|] eqn:E2; [|discriminate].
  intros E. injection E as <-.
  apply dropUntil_length in E1. apply dropUntil_length in E2.
  rewrite length_rev in *. lia.
Qed.

Lemma extractJson_depth (text : jsstring) (parsed : value) :
  extractJson text = Return parsed -> depth parsed <= length text.
Proof.
  unfold extractJson. pose proof (depth_weight parsed (le_n _)) as Hd.
  destruct (JSON_parse (cleanText text)) as [p|] eqn:Ep.
  - intros E. injection E as <-. apply JSON_parse_weight in Ep.
    pose proof (cleanText_length text). lia.
  - destruct (matchBraces text) as [m|] eqn:Em; [|discriminate].
    destruct (JSON_parse m) as [p|] eqn:Ep'; [|discriminate].
    intros E. injection E as <-. apply JSON_parse_weight in Ep'.
    apply matchBraces_length in Em. lia.
Qed.

(** A stack as deep as the response is long is enough for
    [analyzePrescription]: it then does what the unbounded recursion
    defines. *)
Lemma analyzePrescriptionOn_enough (stack : nat) (ai : outcome (option jsstring)) :
  (forall text, ai = Return (Some text) -> length text <= stack) ->
  analyzePrescriptionOn stack ai = analyzePrescription ai.
Proof.
  intros Hlen. unfold analyzePrescriptionOn, analyzePrescription.
  destruct ai as [[text|]|e]; try reflexivity. cbn [bind].
  destruct (nonEmpty text); [|reflexivity].
  destruct (extractJson text) as [parsed|e] eqn:Ex; [|reflexivity].
  cbn [bind]. apply normalizeOn_enough. apply extractJson_depth in Ex.
  specialize (Hlen text eq_refl). lia.
Qed.

(** ** The exceptions *)

Ltac overflow E :=
  repeat (apply bind_throw in E as [E|(? & _ & E)];
          [apply sanitizeStringOn_throw in E; auto|]);
  try discriminate E.

Lemma sanitizeMedicationOn_throw (stack : nat) (m : value) (e : exn) :
  sanitizeMedicationOn stack m = Throw e -> e = TypeError \/ e = RangeError.
Proof.
  destruct m as [| | b|x|s|elems|props]; unfold sanitizeMedicationOn; intros E;
    try (injection E as <-; now left); overflow E.
Qed.

Lemma normalizeMedicationsOn_throw (stack : nat) (meds : value) (e : exn) :
  normalizeMedicationsOn stack meds = Throw e -> e = TypeError \/ e = RangeError.
Proof.
  destruct meds as [| | b|x|s|entries|props]; unfold normalizeMedicationsOn;
    try discriminate.
  intros E. apply bind_throw in E as [E|(ms & _ & E)]; [|discriminate].
  apply mapT_throw in E as (m & _ & E). now apply sanitizeMedicationOn_throw in E.
Qed.

Lemma normalizeMetadataOn_throw (stack : nat) (md : value) (e : exn) :
  normalizeMetadataOn stack md = Throw e -> e = TypeError \/ e = RangeError.
Proof.
  unfold normalizeMetadataOn. cbv zeta. intros E.
  apply bind_throw in E as [E|(d & _ & E)];
    [apply sanitizeStringOn_throw in E; auto|].
  destruct (assignable (if truthy md then md else VObj []));
    [|injection E as <-; now left].
  overflow E.
Qed.

Lemma normalizeSummaryOn_throw (stack : nat) (summary : value) (e : exn) :
  normalizeSummaryOn stack summary = Throw e -> e = RangeError.
Proof.
  unfold normalizeSummaryOn. cbv zeta. intros E.
  repeat (apply bind_throw in E as [E|(? & _ & E)];
          [now apply sanitizeStringOn_throw in E|]).
  discriminate E.
Qed.

Lemma normalizeOn_throw (stack : nat) (parsed0 : value) (e : exn) :
  normalizeOn stack parsed0 = Throw e -> e = TypeError \/ e = RangeError.
Proof.
  unfold normalizeOn. cbv zeta.
  destruct (assignable (if truthy parsed0 then parsed0 else VObj []));
    [|intros E; injection E as <-; now left].
  intros E.
  apply bind_throw in E as [E|(meds & _ & E)];
    [now apply normalizeMedicationsOn_throw in E|].
  apply bind_throw in E as [E|(md & _ & E)];
    [now apply normalizeMetadataOn_throw in E|].
  apply bind_throw in E as [E|(summary & _ & E)];
    [apply normalizeSummaryOn_throw in E; auto|].
  overflow E.
Qed.

(** A field nested as deep as the stack makes the normaliser raise a
    RangeError, although the parsed value is an object, has no medication
    and no metadata. *)
Lemma normalizeOn_overflow (stack : nat) :
  normalizeOn (S stack) (VObj [(lit "disclaimer", nest (S stack) VNull)])
  = Throw RangeError.
Proof.
  unfold normalizeOn. cbv zeta.
  change (truthy (VObj [(lit "disclaimer", nest (S stack) VNull)])) with true.
  cbv iota. change (assignable (VObj [(lit "disclaimer", nest (S stack) VNull)])) with true.
  cbv iota.
  change (getProp (VObj [(lit "disclaimer", nest (S stack) VNull)]) (lit "medications"))
    with VUndefined.
  change (getProp (VObj [(lit "disclaimer", nest (S stack) VNull)]) (lit "metadata"))
    with VUndefined.
  change (getProp (VObj [(lit "disclaimer", nest (S stack) VNull)]) (lit "bhashini_summary"))
    with VUndefined.
  change (getProp (VObj [(lit "disclaimer", nest (S stack) VNull)]) (lit "disclaimer"))
    with (nest (S stack) VNull).
  rewrite sanitizeStringOn_nest.
  unfold normalizeMedicationsOn. cbn [bind].
  rewrite normalizeMetadataOn_enough
    by (pose proof (depth_pos VUndefined); cbn [depth]; lia).
  rewrite normalizeSummaryOn_enough by (cbn [depth]; lia).
  reflexivity.
Qed.

(** X4.  When the normaliser returns.  With a stack as deep as the parsed
    value it raises in three cases only, and then a TypeError: the parsed
    value is a truthy primitive (a number, a string, [true]); its
    [medications] array holds [null] or [undefined]; its [metadata] is a
    truthy primitive.  Everything else, absent or ill-typed sections
    included, is normalised.  Whatever the stack, it raises nothing but a
    TypeError or the RangeError of an exhausted stack. *)
Theorem normalizeOn_returns (stack : nat) (parsed0 : value) :
  let parsed := if truthy parsed0 then parsed0 else VObj [] in
  (depth parsed0 <= stack ->
   ((exists r, normalizeOn stack parsed0 = Return r) <->
    assignable parsed = true
    /\ (forall entries e,
          getProp parsed (lit "medications") = VArr entries -> In e entries ->
          e <> VNull /\ e <> VUndefined)
    /\ (truthy (getProp parsed (lit "metadata")) = true ->
        assignable (getProp parsed (lit "metadata")) = true))
   /\ (forall e, normalizeOn stack parsed0 = Throw e -> e = TypeError))
  /\ (forall e, normalizeOn stack parsed0 = Throw e ->
        e = TypeError \/ e = RangeError).
Proof.
  cbv zeta. split; [|intros e; apply normalizeOn_throw].
  intros Hd. rewrite (normalizeOn_enough parsed0 Hd).
  exact (normalize_outcome parsed0).
Qed.

(** X5.  The errors of [analyzePrescription]: the provider's own, passed on as
    it is, the three the function raises by name, the TypeError of the
    normaliser and the RangeError of an exhausted stack; there is no
    other. *)
Theorem analyzePrescriptionOn_errors (stack : nat) (ai : outcome (option jsstring))
    (e : exn) :
  analyzePrescriptionOn stack ai = Throw e ->
  ai = Throw e
  \/ e = Error "No response text from AI"
  \/ e = Error "Failed to parse AI response as JSON"
  \/ e = Error "No JSON structure found in text"
  \/ e = TypeError
  \/ e = RangeError.
Proof.
  unfold analyzePrescriptionOn. intros E.
  apply bind_throw in E as [E|(t & _ & E)]; [now left|]. right.
  destruct t as [t|]; [|injection E as <-; now left].
  destruct (nonEmpty t); [|injection E as <-; now left].
  apply bind_throw in E as [E|(parsed & _ & E)].
  - unfold extractJson in E.
    destruct (JSON_parse (cleanText t)); [discriminate|].
    destruct (matchBraces t) as [m|].
    + destruct (JSON_parse m); [discriminate|]. injection E as <-. auto.
    + injection E as <-. auto.
  - apply normalizeOn_throw in E as [->| ->]; auto 6.
Qed.

(** ** findNearestStore *)

Lemma scanChunksOn_null (stack : nat) (chunks : list value) (c : value) :
  In c chunks -> c = VNull \/ c = VUndefined ->
  forall st, exists e, scanChunksOn stack st chunks = Throw e.
Proof.
  intros Hin Hc. induction chunks as [|c' r IH]; [contradiction|].
  intros st. cbn [scanChunksOn].
  destruct (scanChunkOn stack st c') as [st1|e] eqn:E1; cbn [bind].
  - destruct Hin as [->|Hin].
    + destruct Hc as [->| ->]; discriminate E1.
    + now apply IH.
  - now exists e.
Qed.

(** X11.  One grounding chunk of the first candidate that is [null] or
    [undefined] makes [findNearestStore] return [null], wherever it stands
    in the list, whatever the other chunks hold, a URI and a title
    included, and whatever stack is left. *)
Theorem findNearestStoreOn_null (stack : nat) (lat lng : number)
    (response : GenerateContentResponse) (cand : Candidate) (rest : list Candidate)
    (c : value) :
  candidates response = Some (cand :: rest) ->
  In c (chunksOf cand) -> c = VNull \/ c = VUndefined ->
  findNearestStoreOn stack lat lng (Return response) = Return None.
Proof.
  intros Ec Hin Hc. unfold findNearestStoreOn. cbn [bind].
  unfold extractStoreOn. rewrite Ec.
  destruct (scanChunksOn_null stack (chunksOf cand) Hin Hc scanStart) as (e & ->).
  reflexivity.
Qed.

(** As on an unbounded stack, nothing leaves [findNearestStore]. *)
Lemma findNearestStoreOn_never_throws (stack : nat) (lat lng : number)
    (ai : outcome GenerateContentResponse) :
  exists r, findNearestStoreOn stack lat lng ai = Return r.
Proof.
  unfold findNearestStoreOn.
  destruct (bind ai (extractStoreOn stack lat lng)) as [r|e]; eexists; reflexivity.
Qed.

End ServicesOnStack.

(* ===================================================================== *)
(** * Reading a result again *)
(* ===================================================================== *)

Section Idempotence.

Context {H : Host}.









End Idempotence.

(* ===================================================================== *)
(** * Worked examples *)
(* ===================================================================== *)

(** The theorems above, applied to concrete inputs at the instance
    [IntegerHost.host], and the inputs on which the code departs from what
    its specification says. *)

Import IntegerHost.

(** The examples of the specification, and the artifact in each of the
    places it can hide. *)
Example sanitize_artifact_inputs :
  sanitizeString (VStr artifact) = []
  /\ sanitizeString (VStr (lit "  [object Object] ")) = []
  /\ sanitizeString (VArr [VStr artifact; VStr (lit " [object Object]")]) = []
  /\ sanitizeString (VObj [(lit "text", VStr artifact)]) = []
  /\ sanitizeString (VStr (qlit "{'name': '[object Object]'}")) = [].
Proof. repeat split. Qed.

Example sanitize_embedded_object :
  sanitizeString (VStr (qlit "{'text': 'Paracetamol'}")) = lit "Paracetamol".
Proof. reflexivity. Qed.

Example sanitize_array :
  sanitizeString (VArr [VStr (lit "A"); VStr []; VStr (lit "B")]) = lit "A, B".
Proof. reflexivity. Qed.

(** ** sanitizeString on strings *)

(** C5, as stated, fails: a padded plain string is returned with its
    white space, not trimmed. *)
Lemma sanitizeString_returns_untrimmed :
  let s := lit "  abc " in
  startsWith (trim s) (lit "{") = false
  /\ trim s <> artifact
  /\ trim s = lit "abc"
  /\ sanitizeString (VStr s) = lit "  abc "
  /\ sanitizeString (VStr s) <> trim s.
Proof.
  cbv zeta. repeat split; try reflexivity; vm_compute; discriminate.
Qed.

Lemma sanitizeString_string_result_witness :
  sanitizeString (VStr (lit "  abc ")) = lit "  abc "
  /\ sanitizeString (VStr (lit " {abc ")) = trim (lit " {abc ").
Proof.
  split.
  - apply (proj1 (sanitizeString_string_result (lit "  abc "))).
    + reflexivity.
    + vm_compute. discriminate.
  - apply (proj2 (sanitizeString_string_result (lit " {abc "))); reflexivity.
Defined.



(** ** sanitizeString and the call stack *)



(** An overflow below a string that is decoded is caught on line 219: the
    text comes back as it is, where a deeper stack gives what it holds. *)
Example sanitizeStringOn_swallows :
  sanitizeStringOn 3 (VStr (qlit " {'text': [['x']]} "))
  = Return (qlit "{'text': [['x']]}")
  /\ sanitizeStringOn 5 (VStr (qlit " {'text': [['x']]} ")) = Return (lit "x")
  /\ sanitizeString (VStr (qlit " {'text': [['x']]} ")) = lit "x".
Proof. repeat split. Qed.

(** ** JSON extraction: the examples of the specification *)

Lemma extractJson_spec_witness :
  extractJson fenced = Return objectA1
  /\ (exists w, extractJson (qlit "noise {'a':1} noise") = Return w
                /\ (JSON_parse (cleanText (qlit "noise {'a':1} noise")) = None
                    -> w = objectA1))
  /\ (exists e, extractJson (lit "no braces here") = Throw e).
Proof.
  destruct (extractJson_spec (H := host)) as (Hfenced & Hembedded & Hfails).
  split; [|split].
  - apply (Hfenced ([10%N] ++ qlit "{'a':1}" ++ [10%N])).
    + vm_compute. intuition discriminate.
    + reflexivity.
  - apply (Hembedded (lit "noise ") (qlit "'a':1") (lit " noise")).
    + vm_compute. intuition discriminate.
    + vm_compute. intuition discriminate.
    + reflexivity.
  - apply Hfails. split; [reflexivity|].
    intros span Hspan. discriminate Hspan.
Defined.

Example extractJson_embedded :
  extractJson (qlit "noise {'a':1} noise") = Return objectA1.
Proof. reflexivity. Qed.

Example extractJson_no_braces :
  extractJson (lit "no braces here") = Throw (Error "No JSON structure found in text").
Proof. reflexivity. Qed.

(** Only the span from the first opening brace to the last closing brace
    is tried: a text holding two objects fails, although each parses. *)
Example extractJson_two_objects :
  extractJson (qlit "x {'a':1} y {'b':2}")
  = Throw (Error "Failed to parse AI response as JSON")
  /\ JSON_parse (qlit "{'a':1}") = Some objectA1.
Proof. split; reflexivity. Qed.

(** ** Normalisation *)

(** The two entries of the specification: the first is dropped, the
    second retained. *)
Example medications_filtered :
  normalizeMedications (VArr [entry (lit "Not provided in image"); entry (lit "Crocin")])
  = Return [medication (lit "Crocin")].
Proof. reflexivity. Qed.

Lemma normalizeMedications_spec_witness :
  (exists ms,
     Forall2 (fun e m => sanitizeMedication e = Return m)
             [entry (lit "Not provided in image"); entry (lit "Crocin")] ms
     /\ [medication (lit "Crocin")] = filter keepMedication ms
     /\ forall m, In m ms ->
          (In m [medication (lit "Crocin")] <->
           let brand := toLowerCase (prescribed_brand m) in
           brand <> [] /\ 1 < length brand
           /\ includes brand (lit "not provided") = false
           /\ includes brand (lit "illegible") = false))
  /\ keepMedication (medication (lit "Not provided in image")) = false
  /\ keepMedication (medication (lit "Crocin")) = true.
Proof.
  destruct (normalizeMedications_spec (H := host)) as (Hfilter & Hbrands).
  split; [|split].
  - apply (Hfilter [entry (lit "Not provided in image"); entry (lit "Crocin")]).
    reflexivity.
  - apply (proj1 (Hbrands (entry (lit "Not provided in image")) _ eq_refl)).
    reflexivity.
  - apply (proj2 (Hbrands (entry (lit "Crocin")) _ eq_refl)).
    reflexivity.
Defined.

(** C6, as stated, fails.  The brand made of the single code unit U+0130
    has length one, yet its entry is kept: the tests of the filter are
    made on the lower-cased brand, which has two code units. *)
Lemma medication_kept_with_short_brand :
  let brand := [304%N] in
  normalizeMedications (VArr [entry brand]) = Return [medication brand]
  /\ length (prescribed_brand (medication brand)) = 1
  /\ toLowerCase brand = [105%N; 775%N].
Proof.
  cbv zeta. repeat split.
Qed.

(** A [null] entry makes the whole pass raise. *)
Example medications_null_entry :
  normalizeMedications (VArr [VNull; entry (lit "Crocin")]) = Throw TypeError.
Proof. reflexivity. Qed.

(** C2: on each of the first four responses the code returns a result
    whose English summary is empty.  The summary is an empty object, an
    empty array, an object of two lines, and the artifact string: each is
    truthy, so the default of line 321 is not taken, and each is sanitised
    to the empty string.  Line 383 does it the other way round, for the
    name of a store: the default is applied to what the sanitiser
    returns. *)
Theorem analyzePrescription_empty_en :
  let summary (text : jsstring) : option jsstring :=
    match analyzePrescription
            (Return (Some (qlit "{'bhashini_summary': {'en': " ++ text ++ lit "}}")))
    with
    | Return r => Some (en (bhashini_summary r))
    | Throw _ => None
    end in
  summary (lit "{}") = Some []
  /\ summary (lit "[]") = Some []
  /\ summary (qlit "{'line1': 'Take after food', 'line2': 'Twice a day'}") = Some []
  /\ summary (qlit "'[object Object]'") = Some []
  /\ summary (lit "null") = Some (lit "Analysis complete.")
  /\ summary (qlit "'Take after food'") = Some (lit "Take after food").
Proof.
  cbv zeta. repeat split; vm_compute; reflexivity.
Qed.

(** ** findNearestStore *)

(** C8: on this response the code returns a store whose [mapUri] is
    empty.  The URI of the chunk is sanitised to the JSON text of a
    two-field object, which is not empty, so the constructed URL is not
    used; the final sanitisation decodes that text into an object of two
    unrecognised fields, hence the empty string. *)
Lemma findNearestStore_empty_mapUri :
  sanitizeString (VStr brokenUri) = qlit "{'a':'x', 'b':'y'}"
  /\ findNearestStore 12%Z 77%Z (Return brokenResponse)
     = Return (Some {| name := lit "Jan Aushadhi Kendra";
                       address := lit "Shop 4, Main Road";
                       mapUri := [] |}).
Proof. split; reflexivity. Qed.

(** Without a URI in the chunks the constructed URL is returned. *)
Example findNearestStore_constructed_url :
  findNearestStore 12%Z 77%Z
    (Return {| candidates := Some [ {| groundingMetadata := None |} ]; text := None |})
  = Return (Some {|
      name := lit "Jan Aushadhi Kendra";
      address := lit "Jan Aushadhi Kendra (Verified Store)";
      mapUri := lit "https://www.google.com/maps/search/Pradhan+Mantri+Bhartiya+Janaushadhi+Kendra/@12,77,15z"
    |}).
Proof. reflexivity. Qed.

Example findNearestStore_null_chunk :
  findNearestStore 12%Z 77%Z
    (Return {| candidates :=
                 Some [ {| groundingMetadata :=
                             Some {| groundingChunks := Some [VNull] |} |} ];
               text := None |})
  = Return None.
Proof. reflexivity. Qed.

(** ** The further properties, on concrete inputs *)



Lemma normalizeOn_returns_witness :
  (exists r, normalizeOn (H := host) 1 (VObj []) = Return r)
  /\ (RangeError = TypeError \/ RangeError = RangeError).
Proof.
  split.
  - apply (proj2 (proj1 (proj1 (@normalizeOn_returns host 1 (VObj [])) (le_n 1)))).
    split; [reflexivity|]. split; [|discriminate].
    intros entries e He. discriminate He.
  - apply (proj2 (@normalizeOn_returns host 1
                    (VObj [(lit "disclaimer", VArr [VNull])])) RangeError).
    reflexivity.
Defined.

Lemma analyzePrescriptionOn_errors_witness :
  Return (Some (qlit "{'disclaimer': [[null]]}")) = Throw RangeError
  \/ RangeError = Error "No response text from AI"
  \/ RangeError = Error "Failed to parse AI response as JSON"
  \/ RangeError = Error "No JSON structure found in text"
  \/ RangeError = TypeError
  \/ RangeError = RangeError.
Proof.
  apply (@analyzePrescriptionOn_errors host 2
           (Return (Some (qlit "{'disclaimer': [[null]]}")))).
  reflexivity.
Defined.

Lemma analyzePrescription_no_artifact_witness :
  lit "INR" <> artifact /\ trim (lit "INR") <> artifact.
Proof.
  apply (@analyzePrescription_no_artifact host
           (Return (Some (qlit "{'disclaimer': '[object Object]'}"))) defaultResult).
  - reflexivity.
  - vm_compute. auto.
Defined.

Lemma normalize_medications_kept_witness :
  1 < length (lit "Crocin")
  /\ includes (map lowerAscii (lit "Crocin")) (lit "not provided") = false
  /\ includes (map lowerAscii (lit "Crocin")) (lit "illegible") = false.
Proof.
  apply (proj1 (@normalize_medications_kept host twoBrands crocinResult eq_refl)
               (medication (lit "Crocin"))).
  - now left.
  - reflexivity.
Defined.

Lemma normalize_metadata_witness :
  doctor (metadata doctorResult) = lit "Dr. Rao"
  /\ date (metadata doctorResult) = lit "Not provided in image"
  /\ currency (metadata doctorResult) = lit "INR".
Proof.
  exact (@normalize_metadata host doctorOnly doctorResult eq_refl).
Defined.

Lemma normalize_sectionless_witness :
  normalize (H := host) VNull = Return defaultResult
  /\ normalize (H := host) (VArr [VBool true]) = Return defaultResult.
Proof.
  split.
  - apply (@normalize_sectionless host VNull); reflexivity.
  - apply (@normalize_sectionless host (VArr [VBool true])); reflexivity.
Defined.

Lemma findNearestStoreOn_null_witness :
  findNearestStoreOn 8 12%Z 77%Z (Return holedResponse) = Return None.
Proof.
  apply (@findNearestStoreOn_null host 8 12%Z 77%Z holedResponse holedCandidate []
           VNull eq_refl).
  - right. now left.
  - now left.
Defined.

Lemma findNearestStore_name_witness :
  name goodStore <> [] /\ name goodStore <> artifact
  /\ name bareStore = lit "Jan Aushadhi Kendra".
Proof.
  destruct (@findNearestStore_name host 12%Z 77%Z goodResponse goodStore eq_refl)
    as (Hne & Hna & _).
  destruct (@findNearestStore_name host 12%Z 77%Z bareResponse bareStore eq_refl)
    as (_ & _ & Hdefault).
  split; [exact Hne|]. split; [exact Hna|].
  apply (Hdefault bareCandidate [] eq_refl). intros c [].
Defined.

Lemma findNearestStore_constructed_uri_witness :
  mapUri bareStore
  = lit "https://www.google.com/maps/search/Pradhan+Mantri+Bhartiya+Janaushadhi+Kendra/@"
    ++ lit "12" ++ lit "," ++ lit "77" ++ lit ",15z".
Proof.
  apply (@findNearestStore_constructed_uri host 12%Z 77%Z bareResponse bareStore
           bareCandidate [] eq_refl eq_refl).
  intros c [].
Defined.

Lemma findNearestStore_last_uri_witness :
  mapUri goodStore = lit "https://maps.google.com/?cid=1".
Proof.
  apply (@findNearestStore_last_uri host 12%Z 77%Z goodResponse goodStore
           goodCandidate [] [] [] goodChunk 104%N (lit "ttps://maps.google.com/?cid=1")
           eq_refl eq_refl eq_refl).
  - intros c [].
  - reflexivity.
  - reflexivity.
  - discriminate.
  - discriminate.
Defined.

Lemma findNearestStore_fallback_address_witness :
  address reviewedStore
  = lit "Jan Aushadhi Kendra (Verified Store)" ++ lit ": "
    ++ lit " good. cheap" ++ lit " open late"
  /\ address bareStore = lit "Jan Aushadhi Kendra (Verified Store)".
Proof.
  split.
  - apply (@findNearestStore_fallback_address host 12%Z 77%Z reviewedResponse
             reviewedStore reviewedCandidate [] eq_refl eq_refl).
    vm_compute. lia.
  - apply (@findNearestStore_fallback_address host 12%Z 77%Z bareResponse
             bareStore bareCandidate [] eq_refl eq_refl).
    vm_compute. lia.
Defined.

Lemma findNearestStore_answer_address_witness :
  address goodStore = cleanAnswer goodResponse
  /\ ~ In 42%N (address goodStore)
  /\ trim (address goodStore) = address goodStore.
Proof.
  apply (@findNearestStore_answer_address host 12%Z 77%Z goodResponse goodStore eq_refl).
  - reflexivity.
  - vm_compute. discriminate.
  - vm_compute. lia.
Defined.

Lemma extractJson_messages_witness :
  extractJson (H := host) (lit "no braces here")
  = Throw (Error "No JSON structure found in text")
  /\ extractJson (H := host) (qlit "see {this} and {'a':1}")
     = Throw (Error "Failed to parse AI response as JSON").
Proof.
  split.
  - apply (proj1 (@extractJson_messages host (lit "no braces here"))).
    split; [reflexivity|]. apply matchBraces_none. reflexivity.
  - apply (proj1 (proj2 (@extractJson_messages host (qlit "see {this} and {'a':1}")))).
    split; [reflexivity|]. eexists. split; reflexivity.
Defined.

Lemma generateSpeech_result_witness :
  generateSpeech (Return speechResponse) = Return (lit "UklGRg==")
  /\ (Return {| speechCandidates := Some [] |} = Throw (Error "No audio content returned")
      \/ Error "No audio content returned" = Error "No audio content returned").
Proof.
  split.
  - apply (proj1 (generateSpeech_result (Return speechResponse)) (lit "UklGRg==")).
    split; [discriminate|]. repeat eexists.
  - apply (proj2 (generateSpeech_result (Return {| speechCandidates := Some [] |}))).
    reflexivity.
Defined.

Lemma handleLocate_geolocation_error_witness :
  permissionDenied (handleLocate (Failed deniedError) initialState) = true
  /\ error (handleLocate (Failed deniedError) initialState)
     = Some (userMessage {| code := code deniedError; message := VNull |}).
Proof.
  pose proof (@handleLocate_geolocation_error host deniedError initialState) as W.
  cbv zeta in W. destruct W as (_ & _ & _ & Hflag & Hfixed).
  split.
  - apply Hflag. reflexivity.
  - apply Hfixed. left. reflexivity.
Defined.

Lemma handleLocate_position_witness :
  error (handleLocate (Position (H := host) 12%Z 77%Z (Throw Rejected)) initialState)
  = Some (lit "Unable to find a store nearby. Please try again or search on Google Maps.").
Proof.
  pose proof (@handleLocate_position host 12%Z 77%Z (Throw Rejected) initialState) as W.
  cbv zeta in W. destruct W as (_ & _ & _ & Hfail).
  apply (Hfail Rejected). reflexivity.
Defined.

Lemma handleLocate_settles_witness :
  let st' := handleLocate (Position (H := host) 12%Z 77%Z (Return goodResponse))
                          initialState in
  loading st' = false
  /\ ((exists loc, store st' = Some loc /\ error st' = None)
      \/ (exists m, store st' = None /\ error st' = Some m /\ m <> [])).
Proof.
  apply (@handleLocate_settles host
           (Position (H := host) 12%Z 77%Z (Return goodResponse)) initialState).
  reflexivity.
Defined.

Lemma analyzePrescription_fenced_witness :
  analyzePrescription (H := host) (Return (Some (qlit "{'medications': []}")))
  = normalize (VObj [(lit "medications", VArr [])])
  /\ analyzePrescription (H := host)
       (Return (Some (lit "```json" ++ qlit "{'medications': []}" ++ lit "```")))
     = normalize (VObj [(lit "medications", VArr [])]).
Proof.
  apply (@analyzePrescription_fenced host (qlit "{'medications': []}")
           (VObj [(lit "medications", VArr [])])).
  - vm_compute. intuition discriminate.
  - reflexivity.
Defined.
